(** * distcache: the heartbeat monitor and the cache router

    A shallow embedding of [src/health_server.py] (class [HealthServer]) and
    [src/server.py] (class [CacheServer]).  Sockets, the transport and the
    remote peers are the environment: every call into them is modelled by the
    answer the call produced (a returned value or a raised exception), given
    to the embedded method as an argument or as one entry of a trace.

    Mutable attributes of [self] become record fields and every method is a
    function from the state before to the state after. *)

From Stdlib Require Import ZArith QArith.QArith_base Strings.Byte.
From stdpp Require Import base option list gmap strings pretty.

Local Open Scope Z_scope.

Set Warnings "-register-all".

(** ** Python values, exceptions and the few built-ins the code relies on *)

Module Py.

(** The exceptions that can surface in the modelled code. *)
Inductive exn : Type :=
| ValueError          (* list.remove(x): x not in list *)
| ZeroDivisionError   (* a / 0 *)
| AttributeError      (* attribute lookup on an object that lacks it *)
| OSError             (* socket errors: broken pipe, reset, bad descriptor *)
| TimeoutError        (* socket.timeout after settimeout *)
| EmptyRingError.     (* lookup on a ring without nodes *)

(** Outcome of a call: it returns a value or raises. *)
Inductive result (A : Type) : Type :=
| Ret (a : A)
| Raise (e : exn).
Global Arguments Ret {A} a.
Global Arguments Raise {A} e.

(** The objects that travel over the wire (pickled commands and replies). *)
Inductive value : Type :=
| VNone
| VBool (b : bool)
| VInt (n : Z)
| VStr (s : string)
| VTuple (items : list value).

(** [bool(v)], the test performed by [if v:] . *)
Definition truthy (v : value) : bool :=
  match v with
  | VNone => false
  | VBool b => b
  | VInt n => negb (n =? 0)
  | VStr s => negb (String.eqb s EmptyString)
  | VTuple items => match items with [] => false | _ :: _ => true end
  end.

(** [v == False].  [bool] is a subclass of [int] in Python, so the integer
    zero compares equal to [False]; no other modelled object does (floats,
    of which 0.0 does as well, are not among them). *)
Definition eq_False (v : value) : bool :=
  match v with
  | VBool b => negb b
  | VInt n => n =? 0
  | VNone | VStr _ | VTuple _ => false
  end.

(** [v != False]. *)
Definition ne_False (v : value) : bool := negb (eq_False v).

(** [int(b)] for a bool [b], as used by [n += b]. *)
Definition int_of_bool (b : bool) : Z := if b then 1 else 0.

(** [l.remove(x)]: drops the first occurrence of [x]; [ValueError] when
    there is none. *)
Fixpoint remove {A : Type} `{EqDecision A} (x : A) (l : list A) : result (list A) :=
  match l with
  | [] => Raise ValueError
  | y :: l' =>
      if decide (x = y) then Ret l'
      else match remove x l' with
           | Ret r => Ret (y :: r)
           | Raise e => Raise e
           end
  end.

(** [a / b] on integers; the quotient is a float in Python, kept here as an
    exact rational. *)
Definition true_div (a b : Z) : result Q :=
  match b with
  | Z0 => Raise ZeroDivisionError
  | Zpos p => Ret (Qmake a p)
  | Zneg p => Ret (Qmake (- a) p)
  end.

End Py.

Import Py.

(** ** The transport, as far as the two classes see it *)

Module Net.

(** A socket object, identified by its handle. *)
Definition socket : Type := Z.

(** [(host, port)] as returned by [accept]. *)
Definition address : Type := (string * Z)%type.

Definition bytes : Type := list byte.

#[global] Instance byte_eq_dec : EqDecision byte := Byte.byte_eq_dec.

(** [a == b] on [bytes] objects. *)
Definition bytes_eqb (a b : bytes) : bool :=
  bool_decide (a = b).

End Net.

Import Net.

(** ** [src/health_server.py] *)

Module HealthServer.

(** [self.ACK_HEADER = 3] *)
Definition ACK_HEADER : Z := 3.

(** [self.ACK_MESSAGE = 'ACK'.encode(self.ACK_FORMAT)]; the configured
    format is an ASCII-compatible encoding. *)
Definition ACK_MESSAGE : bytes := [x41; x43; x4b].

(** The attributes of [HealthServer] that the methods read and write. *)
Record t : Type := mk {
  clients : list address;
  unhealthy_clients : list address;
  DEAD_THRESH : Z
}.

(** [__init__], with [config.HEARTBEAT_THRESH] as argument. *)
Definition init (HEARTBEAT_THRESH : Z) : t :=
  {| clients := []; unhealthy_clients := []; DEAD_THRESH := HEARTBEAT_THRESH |}.

(** What the probed socket answers during one pass of the loop:
    [client_socket.send(...)], [client_socket.settimeout(5)] and
    [client_socket.recv(...)].  A later answer is only consulted when the
    code gets that far. *)
Record probe_io : Type := mk_io {
  send_r : result Z;
  settimeout_r : result unit;
  recv_r : result bytes
}.

(** How control leaves the [try] block. *)
Inductive flow : Type :=
| Break       (* break *)
| Continue    (* continue *)
| Fall.       (* falls through to the statement after try/except *)

(** The body of [try:], lines 52-63, from the counter before to the way out
    and the counter after. *)
Definition try_body (no_beat_count : Z) (io : probe_io) : result (flow * Z) :=
  match send_r io with
  | Raise e => Raise e
  | Ret bytes_sent =>
      if negb (bytes_sent =? ACK_HEADER) then Ret (Break, no_beat_count)
      else
        match settimeout_r io with
        | Raise e => Raise e
        | Ret _ =>
            match recv_r io with
            | Raise e => Raise e
            | Ret response =>
                match response with
                | _ :: _ =>
                    if bytes_eqb response ACK_MESSAGE
                    then Ret (Continue, 0)
                    else Ret (Fall, no_beat_count + 1)
                | [] => Ret (Fall, no_beat_count)
                end
            end
        end
  end.

(** One pass of [while True:], lines 50-68: the bare [except:] turns any
    exception into one more miss, and a pass that falls through is checked
    against the threshold. *)
Definition probe_round (thresh no_beat_count : Z) (io : probe_io) : flow * Z :=
  let '(way, count) :=
    match try_body no_beat_count io with
    | Ret r => r
    | Raise _ => (Fall, no_beat_count + 1)
    end in
  match way with
  | Break => (Break, count)
  | Continue => (Continue, count)
  | Fall => if count =? thresh then (Break, count) else (Continue, count)
  end.

(** State of the session of one node. *)
Inductive session : Type :=
| Probing (consecutiveMisses : Z)
| Dead.

(** The loop, driven by the answers of the socket pass after pass.  When the
    answers run out the loop is still waiting in [Probing]. *)
Fixpoint probe_loop (thresh no_beat_count : Z) (ios : list probe_io) : session :=
  match ios with
  | [] => Probing no_beat_count
  | io :: rest =>
      match probe_round thresh no_beat_count io with
      | (Break, _) => Dead
      | (_, count) => probe_loop thresh count rest
      end
  end.

(** Result of running [probe_health] against a finite trace. *)
Inductive probe_outcome : Type :=
| StillProbing (hs : t) (no_beat_count : Z)
| Returned (hs : t)
| Raised (e : exn) (hs : t).

(** Lines 72-73, executed once the loop is left. *)
Definition declare_dead (client_address : address) (hs : t) : probe_outcome :=
  match remove client_address (clients hs) with
  | Raise e => Raised e hs
  | Ret cs =>
      Returned {| clients := cs;
                  unhealthy_clients := unhealthy_clients hs ++ [client_address];
                  DEAD_THRESH := DEAD_THRESH hs |}
  end.

(** [probe_health(self, client_socket, client_address)]; [ios] is what
    [client_socket] answers. *)
Definition probe_health (ios : list probe_io) (client_address : address) (hs : t)
  : probe_outcome :=
  let hs1 := {| clients := clients hs ++ [client_address];
                unhealthy_clients := unhealthy_clients hs;
                DEAD_THRESH := DEAD_THRESH hs |} in
  match probe_loop (DEAD_THRESH hs1) 0 ios with
  | Probing count => StillProbing hs1 count
  | Dead => declare_dead client_address hs1
  end.

(** [report_health(self, message, client_socket)]; [upstream] is what
    [utils.send_receive_ack] answers for the message handed to it. *)
Definition report_health (message : value) (upstream : value -> result value) (hs : t)
  : result value * t :=
  match upstream message with
  | Raise e => (Raise e, hs)
  | Ret response =>
      (Ret response,
       if truthy response
       then {| clients := clients hs; unhealthy_clients := []; DEAD_THRESH := DEAD_THRESH hs |}
       else hs)
  end.

End HealthServer.

(** ** The ring used by the router ([src.consistenthashing.ConsistentHashing]) *)

Module Ring.

(** The interface [server.py] calls: the constructor, [add_node], [remove_node]
    and [get_node].  The object is mutated in place in Python; here every
    mutator returns the ring after the call. *)
Class ConsistentHashing : Type := {
  ring : Type;
  new : ring;
  add_node : socket -> Z -> ring -> ring;
  remove_node : socket -> ring -> ring;
  get_node : string -> ring -> result socket
}.

Section positions.

(** The hash function of the ring. *)
Variable hash : string -> Z.

(** Positions of the ring, kept sorted by hash value. *)
Definition positions : Type := list (Z * socket).

(** Key of the [i]-th virtual replica of a node. *)
Definition node_key (node : socket) (i : nat) : string :=
  pretty node +:+ "-" +:+ pretty i.

(** Sorted insertion; equal hash values are ordered by node. *)
Fixpoint insert_position (p : Z * socket) (ps : positions) : positions :=
  match ps with
  | [] => [p]
  | q :: ps' =>
      if (p.1 <? q.1) || ((p.1 =? q.1) && (p.2 <=? q.2))
      then p :: q :: ps'
      else q :: insert_position p ps'
  end.

Definition positions_add_node (node : socket) (replicas : Z) (ps : positions) : positions :=
  foldl (fun acc i => insert_position (hash (node_key node i), node) acc)
        ps (seq 0 (Z.to_nat replicas)).

Definition positions_remove_node (node : socket) (ps : positions) : positions :=
  filter (fun p => p.2 <> node) ps.

Definition positions_get_node (key : string) (ps : positions) : result socket :=
  match ps with
  | [] => Raise EmptyRingError
  | first :: _ =>
      match List.find (fun p => hash key <=? p.1) ps with
      | Some p => Ret p.2
      | None => Ret first.2
      end
  end.

(** Modelled from the spec: the module [src/consistenthashing.py] is not
    part of the sources at hand.  Following section 4.1, [add_node]
    inserts one position per virtual replica, keyed by the hash of
    ["{node}-{replica_index}"], into the sorted position set;
    [remove_node] removes all positions of the node; [get_node] returns the
    node of the first position at or after the hash of the key, wrapping
    around to the smallest position, and fails on a ring without nodes. *)
Definition by_positions : ConsistentHashing :=
  {| ring := positions;
     new := [];
     add_node := positions_add_node;
     remove_node := positions_remove_node;
     get_node := positions_get_node |}.

End positions.

End Ring.

(** ** [src/server.py] *)

Module CacheServer.

Section with_ring.

Context {CH : Ring.ConsistentHashing}.

(** The attributes of [CacheServer] that the methods read and write. *)
Record t : Type := mk {
  num_virtual_replicas : Z;
  expire : Z;
  ring : Ring.ring;
  clients : gmap nat (socket * address);
  cache_hits : Z;
  query_count : Z
}.

(** The server together with what it has done to its surroundings. *)
Record world : Type := mk_world {
  self : t;
  backlog : list (socket * address);   (* connections waiting in accept() *)
  sent : list (socket * value);        (* messages handed to utils, in order *)
  journal : list value;                (* logging.info records *)
  stdout : list string                 (* what stats() printed *)
}.

(** Methods run in a state-and-exception monad over [world]. *)
Definition M (A : Type) : Type := world -> result A * world.

Definition ret {A : Type} (a : A) : M A := fun w => (Ret a, w).

Definition bind {A B : Type} (m : M A) (k : A -> M B) : M B :=
  fun w =>
    match m w with
    | (Ret a, w1) => k a w1
    | (Raise e, w1) => (Raise e, w1)
    end.

Definition lift {A : Type} (r : result A) : M A := fun w => (r, w).

Definition gets {A : Type} (f : t -> A) : M A := fun w => (Ret (f (self w)), w).

Definition modify (f : t -> t) : M unit :=
  fun w => (Ret tt,
            {| self := f (self w); backlog := backlog w; sent := sent w;
               journal := journal w; stdout := stdout w |}).

Definition transmit (client_socket : socket) (message : value) : M unit :=
  fun w => (Ret tt,
            {| self := self w; backlog := backlog w;
               sent := sent w ++ [(client_socket, message)];
               journal := journal w; stdout := stdout w |}).

Definition logging_info (record : value) : M unit :=
  fun w => (Ret tt,
            {| self := self w; backlog := backlog w; sent := sent w;
               journal := journal w ++ [record]; stdout := stdout w |}).

Definition print (line : string) : M unit :=
  fun w => (Ret tt,
            {| self := self w; backlog := backlog w; sent := sent w;
               journal := journal w; stdout := stdout w ++ [line] |}).

#[global] Instance M_ret : MRet M := @ret.
#[global] Instance M_bind : MBind M := fun A B k m => bind m k.

(** [_get_server_for_key(self, key)] *)
Definition _get_server_for_key (key : string) : M (socket * value) :=
  r ← gets ring;
  node ← lift (Ring.get_node key r);
  mret (node, VNone).

(** [send_receive(self, message, client_socket)]; [answer] is what
    [utils.send_receive_ack] returns (or raises) for this message. *)
Definition send_receive (message : value) (client_socket : socket)
           (answer : result value) : M value :=
  transmit client_socket message;;
  lift answer.

(** [__init__(self, num_virtual_replicas, expire, ...)]: the constructor
    also records its two arguments with [logging.info]. *)
Definition init (num_virtual_replicas expire : Z) : world :=
  {| self := {| num_virtual_replicas := num_virtual_replicas;
                expire := expire;
                ring := Ring.new;
                clients := ∅;
                cache_hits := 0;
                query_count := 0 |};
     backlog := [];
     sent := [];
     journal := [VTuple [VInt num_virtual_replicas; VInt expire]];
     stdout := [] |}.

(** Lines 64-68: what [spawn] does with the connection [accept] returned.
    [send_r] is the outcome of [utils.send_message]. *)
Definition register (client_socket : socket) (client_address : address)
           (send_r : result unit) : M unit :=
  client_id ← gets (fun s => size (clients s));
  modify (fun s =>
            {| num_virtual_replicas := num_virtual_replicas s; expire := expire s;
               ring := ring s;
               clients := <[client_id := (client_socket, client_address)]> (clients s);
               cache_hits := cache_hits s; query_count := query_count s |});;
  transmit client_socket (VInt (Z.of_nat client_id));;
  lift send_r;;
  modify (fun s =>
            {| num_virtual_replicas := num_virtual_replicas s; expire := expire s;
               ring := Ring.add_node client_socket (num_virtual_replicas s) (ring s);
               clients := clients s;
               cache_hits := cache_hits s; query_count := query_count s |}).

(** [spawn(self)].  [accept()] takes the oldest waiting connection and
    blocks ([None]) while there is none; the body of [while True:] ends
    in an unconditional [break], so it is run for that connection only. *)
Definition spawn (send_r : result unit) (w : world) : option (result unit * world) :=
  match backlog w with
  | [] => None
  | (client_socket, client_address) :: waiting =>
      Some (register client_socket client_address send_r
              {| self := self w; backlog := waiting; sent := sent w;
                 journal := journal w; stdout := stdout w |})
  end.

(** [set(self, key, value)] *)
Definition set (key : string) (v : value) (answer : result value) : M value :=
  '(client_socket, client_address) ← _get_server_for_key key;
  response ← send_receive (VTuple [VStr "set"; VStr key; v]) client_socket answer;
  logging_info (VTuple [VStr "set"; VStr key; v]);;
  mret (VBool (truthy response)).

(** [get(self, key)] *)
Definition get (key : string) (answer : result value) : M value :=
  '(client_socket, client_address) ← _get_server_for_key key;
  response ← send_receive (VTuple [VStr "get"; VStr key]) client_socket answer;
  logging_info (VTuple [VStr "get"; VStr key]);;
  modify (fun s =>
            {| num_virtual_replicas := num_virtual_replicas s; expire := expire s;
               ring := ring s; clients := clients s;
               cache_hits := cache_hits s;
               query_count := query_count s + 1 |});;
  modify (fun s =>
            {| num_virtual_replicas := num_virtual_replicas s; expire := expire s;
               ring := ring s; clients := clients s;
               cache_hits := cache_hits s + int_of_bool (ne_False response);
               query_count := query_count s |});;
  mret response.

(** [delete(self, key)] *)
Definition delete (key : string) (answer : result value) : M value :=
  '(client_socket, client_address) ← _get_server_for_key key;
  response ← send_receive (VTuple [VStr "del"; VStr key]) client_socket answer;
  logging_info (VTuple [VStr "del"; VStr key]);;
  mret response.

(** [add(self, key, diff)] *)
Definition add (key : string) (diff : Z) (answer : result value) : M value :=
  '(client_socket, client_address) ← _get_server_for_key key;
  response ← send_receive (VTuple [VStr "add"; VStr key; VInt diff]) client_socket answer;
  logging_info (VTuple [VStr "add"; VStr key; VInt diff]);;
  mret response.

(** [increment(self, key)] *)
Definition increment (key : string) (answer : result value) : M value :=
  add key 1 answer.

(** [decrement(self, key)] *)
Definition decrement (key : string) (answer : result value) : M value :=
  add key (-1) answer.

(** [_delist_unavailable_server(self, client_socket)] *)
Definition _delist_unavailable_server (client_socket : socket) : M unit :=
  modify (fun s =>
            {| num_virtual_replicas := num_virtual_replicas s; expire := expire s;
               ring := Ring.remove_node client_socket (ring s);
               clients := clients s;
               cache_hits := cache_hits s; query_count := query_count s |}).

(** ["{}\t{.2f}".format(hits, ratio)]: the second field has no [:] before
    [.2f], so it is read as the attribute [2f] of its argument, a float,
    and the lookup fails. *)
Definition format_count_and_ratio (hits : Z) (ratio : Q) : result string :=
  Raise AttributeError.

(** [stats(self)].  ["Total queries: "] has no replacement field, so the
    first line is printed without the count.  The arguments of the second
    [format] call are evaluated before the call. *)
Definition stats : M unit :=
  print "Total queries: ";;
  hits ← gets cache_hits;
  queries ← gets query_count;
  ratio ← lift (true_div hits queries);
  line ← lift (format_count_and_ratio hits ratio);
  print ("Cache hits   : " +:+ line);;
  ratio' ← lift (true_div hits queries);
  line' ← lift (format_count_and_ratio hits ratio');
  print ("Cache miss   : " +:+ line').

(** The calls a user of the router makes, each with the answers of the
    environment it meets, and the arrival of a backend connection. *)
Inductive call : Type :=
| Connect (client_socket : socket) (client_address : address)
| Spawn (send_r : result unit)
| Set_ (key : string) (v : value) (answer : result value)
| Get (key : string) (answer : result value)
| Delete (key : string) (answer : result value)
| Increment (key : string) (answer : result value)
| Decrement (key : string) (answer : result value)
| Add (key : string) (diff : Z) (answer : result value)
| Delist (client_socket : socket)
| Stats.

Definition forget {A : Type} (r : result A * world) : result value * world :=
  (match r.1 with Ret _ => Ret VNone | Raise e => Raise e end, r.2).

(** Outcome of one call; [None] when the call blocks. *)
Definition exec (c : call) (w : world) : option (result value * world) :=
  match c with
  | Connect client_socket client_address =>
      Some (Ret VNone,
            {| self := self w; backlog := backlog w ++ [(client_socket, client_address)];
               sent := sent w; journal := journal w; stdout := stdout w |})
  | Spawn send_r => forget <$> spawn send_r w
  | Set_ key v answer => Some (set key v answer w)
  | Get key answer => Some (get key answer w)
  | Delete key answer => Some (delete key answer w)
  | Increment key answer => Some (increment key answer w)
  | Decrement key answer => Some (decrement key answer w)
  | Add key diff answer => Some (add key diff answer w)
  | Delist client_socket => Some (forget (_delist_unavailable_server client_socket w))
  | Stats => Some (forget (stats w))
  end.

(** A sequence of calls made one after the other by a caller that carries
    on after an exception; a call that blocks ends the run. *)
Fixpoint run (cs : list call) (w : world) : world :=
  match cs with
  | [] => w
  | c :: cs' =>
      match exec c w with
      | None => w
      | Some (_, w1) => run cs' w1
      end
  end.

(** The completed [get] calls of a run, with the value each returned. *)
Fixpoint get_results (cs : list call) (w : world) : list value :=
  match cs with
  | [] => []
  | c :: cs' =>
      match exec c w with
      | None => []
      | Some (r, w1) =>
          match c, r with
          | Get _ _, Ret v => v :: get_results cs' w1
          | _, _ => get_results cs' w1
          end
      end
  end.

End with_ring.

End CacheServer.

Import HealthServer.

(** ** Vocabulary of the properties *)

(** What a pass of the probing loop met on the socket, read off the answers
    alone. *)
Inductive verdict : Type :=
| Acked        (* probe sent in full, reply equal to the acknowledgment *)
| Errored      (* send, settimeout or recv raised (closed connection, timeout) *)
| Garbled      (* probe sent in full, non-empty reply other than the acknowledgment *)
| EmptyReply   (* probe sent in full, recv returned no bytes *)
| ShortSend.   (* send returned a count other than the length of the probe *)

Definition classify (io : probe_io) : verdict :=
  match send_r io with
  | Raise _ => Errored
  | Ret n =>
      if bool_decide (n = ACK_HEADER) then
        match settimeout_r io, recv_r io with
        | Raise _, _ => Errored
        | Ret _, Raise _ => Errored
        | Ret _, Ret [] => EmptyReply
        | Ret _, Ret (b :: bs) =>
            if bool_decide (b :: bs = ACK_MESSAGE) then Acked else Garbled
        end
      else ShortSend
  end.

(** A pass that counts as a miss: an error, or a wrong non-empty reply. *)
Definition missed (io : probe_io) : Prop :=
  classify io = Errored \/ classify io = Garbled.

(** The two cases named by the receive rule of the monitor: nothing arrives
    before the receive timeout, or the bytes received are not the
    acknowledgment. *)
Definition no_reply_in_time (io : probe_io) : Prop :=
  send_r io = Ret ACK_HEADER /\ settimeout_r io = Ret tt /\ recv_r io = Raise TimeoutError.

Definition reply_differs (io : probe_io) : Prop :=
  send_r io = Ret ACK_HEADER /\ settimeout_r io = Ret tt /\
  exists response, recv_r io = Ret response /\ response <> ACK_MESSAGE.

(** Sample passes. *)
Definition io_ack : probe_io :=
  {| send_r := Ret 3; settimeout_r := Ret tt; recv_r := Ret ACK_MESSAGE |}.
Definition io_timeout : probe_io :=
  {| send_r := Ret 3; settimeout_r := Ret tt; recv_r := Raise TimeoutError |}.
Definition io_nak : probe_io :=
  {| send_r := Ret 3; settimeout_r := Ret tt; recv_r := Ret [x4e; x41; x4b] |}.
Definition io_closed_by_peer : probe_io :=
  {| send_r := Ret 3; settimeout_r := Ret tt; recv_r := Ret [] |}.
Definition io_broken_pipe : probe_io :=
  {| send_r := Raise OSError; settimeout_r := Ret tt; recv_r := Raise OSError |}.
Definition io_short_send : probe_io :=
  {| send_r := Ret 2; settimeout_r := Ret tt; recv_r := Ret ACK_MESSAGE |}.

Definition node_a : address := ("10.0.0.7"%string, 4100).

(** A ring by positions with a simple hash, for closed examples. *)
Definition sample_ring : Ring.ConsistentHashing :=
  Ring.by_positions (fun s => Z.of_nat (String.length s)).

(** A router with one registered backend, socket 7. *)
Definition one_backend : @CacheServer.world sample_ring :=
  CacheServer.run [CacheServer.Connect 7 node_a; CacheServer.Spawn (Ret tt)]
                  (CacheServer.init 5 0).

(** The messages of a transport log that went over one connection. *)
Definition messages_on {A : Type} (s : socket) (log : list (socket * A)) : list A :=
  (filter (fun m => m.1 = s) log).*2.

(** The registry holds the ids [0 .. size - 1]. *)
Definition ids_sequential {A : Type} (m : gmap nat A) : Prop :=
  forall i : nat, is_Some (m !! i) <-> (i < size m)%nat.

(** The counters of the statistics are consistent. *)
Definition counters_ok {CH : Ring.ConsistentHashing} (w : CacheServer.world) : Prop :=
  0 <= CacheServer.cache_hits (CacheServer.self w)
    <= CacheServer.query_count (CacheServer.self w).

(** Number of list items equal to [true]. *)
Definition count_true (l : list bool) : Z :=
  Z.of_nat (length (filter (fun b => b = true) l)).

(** Decidable equality of verdicts, and of what counts as a miss. *)
#[global] Instance verdict_eq_dec : EqDecision verdict.
Proof. solve_decision. Defined.

#[global] Instance missed_dec (io : probe_io) : Decision (missed io).
Proof. unfold missed. apply _. Defined.

(** ** [monitor]: the probing threads side by side *)

(** [monitor] starts one thread running [probe_health] per accepted
    connection; the threads share [self.clients] and [self.unhealthy_clients].
    A thread is followed statement by statement: each of the list operations of
    lines 47, 72 and 73 is one atomic step on the shared object, and each pass
    of the loop is one step that touches only the thread's own counter. *)
Module Monitor.

(** Where a thread stands in [probe_health]. *)
Inductive stage : Type :=
| Started (ios : list probe_io)                      (* before line 47 *)
| InLoop (no_beat_count : Z) (ios : list probe_io)   (* in [while True:] *)
| LeftLoop                                           (* before line 72 *)
| Removed                                            (* before line 73 *)
| Finished                                           (* returned *)
| Crashed (e : exn).                                 (* ended by an exception *)

(** A thread: the address of its client, and where it stands.  The trace held
    by the stage is what its socket will still answer. *)
Record thread : Type := mk_thread {
  client_address : address;
  at_stage : stage
}.

(** The next statement of a thread, on the shared [HealthServer]. *)
Definition thread_step (th : thread) (hs : HealthServer.t) : thread * HealthServer.t :=
  let a := client_address th in
  match at_stage th with
  | Started ios =>
      ({| client_address := a; at_stage := InLoop 0 ios |},
       {| clients := clients hs ++ [a];
          unhealthy_clients := unhealthy_clients hs;
          DEAD_THRESH := DEAD_THRESH hs |})
  | InLoop count [] => (th, hs)
  | InLoop count (io :: rest) =>
      match probe_round (DEAD_THRESH hs) count io with
      | (Break, _) => ({| client_address := a; at_stage := LeftLoop |}, hs)
      | (_, count') => ({| client_address := a; at_stage := InLoop count' rest |}, hs)
      end
  | LeftLoop =>
      match remove a (clients hs) with
      | Raise e => ({| client_address := a; at_stage := Crashed e |}, hs)
      | Ret cs =>
          ({| client_address := a; at_stage := Removed |},
           {| clients := cs;
              unhealthy_clients := unhealthy_clients hs;
              DEAD_THRESH := DEAD_THRESH hs |})
      end
  | Removed =>
      ({| client_address := a; at_stage := Finished |},
       {| clients := clients hs;
          unhealthy_clients := unhealthy_clients hs ++ [a];
          DEAD_THRESH := DEAD_THRESH hs |})
  | Finished | Crashed _ => (th, hs)
  end.

(** The monitor: its threads, in the order they were started, and the object
    they share. *)
Record system : Type := mk_system {
  threads : list thread;
  shared : HealthServer.t
}.

(** What happens next: [accept] returns a connection and [monitor] starts a
    thread for it, or the scheduler lets thread [i] run its next statement. *)
Inductive event : Type :=
| Accept (client_address : address) (ios : list probe_io)
| Step (i : nat).

Definition fire (ev : event) (sys : system) : system :=
  match ev with
  | Accept a ios =>
      {| threads := threads sys ++ [{| client_address := a; at_stage := Started ios |}];
         shared := shared sys |}
  | Step i =>
      match threads sys !! i with
      | None => sys
      | Some th =>
          let '(th', hs') := thread_step th (shared sys) in
          {| threads := <[i := th']> (threads sys); shared := hs' |}
      end
  end.

Definition run (evs : list event) (sys : system) : system :=
  foldl (fun acc ev => fire ev acc) sys evs.

(** [monitor] right after the constructor. *)
Definition boot (HEARTBEAT_THRESH : Z) : system :=
  {| threads := []; shared := HealthServer.init HEARTBEAT_THRESH |}.

(** The line [summary] prints: the length of [self.clients]. *)
Definition summary_line (hs : HealthServer.t) : string :=
  "Active healthy clients: " +:+ pretty (length (clients hs)).

(** The threads whose address is on the active list: past line 47 and not
    yet past line 72. *)
Definition active (th : thread) : Prop :=
  match at_stage th with
  | InLoop _ _ | LeftLoop => True
  | _ => False
  end.

Definition finished (th : thread) : Prop :=
  match at_stage th with Finished => True | _ => False end.

Definition crashed (th : thread) : Prop :=
  match at_stage th with Crashed _ => True | _ => False end.

#[global] Instance active_dec (th : thread) : Decision (active th).
Proof. unfold active. destruct (at_stage th); apply _. Defined.

#[global] Instance finished_dec (th : thread) : Decision (finished th).
Proof. unfold finished. destruct (at_stage th); apply _. Defined.

(** The shared lists agree with where the threads stand: the active list
    holds, in some order, the addresses of the threads between lines 47 and
    72, the unhealthy list those of the threads that returned, and no thread
    was ended by an exception. *)
Definition consistent (sys : system) : Prop :=
  clients (shared sys) ≡ₚ client_address <$> filter active (threads sys) /\
  unhealthy_clients (shared sys) ≡ₚ client_address <$> filter finished (threads sys) /\
  Forall (fun th => ~ crashed th) (threads sys).

End Monitor.

(** A call that changes the membership of the ring. *)
Definition membership_call {CH : Ring.ConsistentHashing} (c : CacheServer.call) : Prop :=
  match c with
  | CacheServer.Spawn _ | CacheServer.Delist _ => True
  | _ => False
  end.

(** The registry read in the order of the ids. *)
Definition roster {A : Type} (m : gmap nat A) : list A :=
  omap (fun i => m !! i) (seq 0 (size m)).

(** The connections that arrive during a run, in the order of arrival. *)
Fixpoint arrivals {CH : Ring.ConsistentHashing} (cs : list CacheServer.call)
         (w : CacheServer.world) : list (socket * address) :=
  match cs with
  | [] => []
  | c :: cs' =>
      match CacheServer.exec c w with
      | None => []
      | Some (_, w1) =>
          match c with
          | CacheServer.Connect s a => (s, a) :: arrivals cs' w1
          | _ => arrivals cs' w1
          end
      end
  end.

(** ** The heartbeat monitor *)

Section probing.

Implicit Types (io : probe_io) (ios : list probe_io) (c thresh : Z).

(** One pass of the loop, by what the socket answered. *)
Lemma probe_round_classify thresh c io :
  probe_round thresh c io =
  match classify io with
  | Acked => (Continue, 0)
  | Errored | Garbled => (if c + 1 =? thresh then Break else Continue, c + 1)
  | EmptyReply => (if c =? thresh then Break else Continue, c)
  | ShortSend => (Break, c)
  end.
Proof.
  unfold probe_round, try_body, classify, bytes_eqb.
  destruct io as [[n|e] st rv]; cbn [send_r settimeout_r recv_r].
  - destruct (Z.eqb_spec n ACK_HEADER) as [->|Hn]; cbn [negb].
    + rewrite bool_decide_eq_true_2 by reflexivity.
      destruct st as [[]|e]; [destruct rv as [[|b bs]|e]|];
        repeat case_bool_decide; try contradiction;
        try destruct (_ =? thresh); reflexivity.
    + rewrite bool_decide_eq_false_2 by assumption. reflexivity.
  - destruct (_ =? thresh); reflexivity.
Qed.

Lemma probe_round_missed thresh c io :
  missed io ->
  probe_round thresh c io = (if c + 1 =? thresh then Break else Continue, c + 1).
Proof. intros [H|H]; rewrite probe_round_classify, H; reflexivity. Qed.

Lemma probe_round_acked thresh c io :
  classify io = Acked -> probe_round thresh c io = (Continue, 0).
Proof. intros H; rewrite probe_round_classify, H; reflexivity. Qed.

(** The loop over a trace in two parts. *)
Lemma probe_loop_app thresh c ios ios' :
  probe_loop thresh c (ios ++ ios') =
  match probe_loop thresh c ios with
  | Probing c' => probe_loop thresh c' ios'
  | Dead => Dead
  end.
Proof.
  revert c; induction ios as [|io ios IH]; intros c; simpl; [reflexivity|].
  destruct (probe_round thresh c io) as [[] c']; auto.
Qed.

(** Below the threshold every miss is counted and the loop goes on. *)
Lemma probe_loop_misses_below thresh c ios :
  Forall missed ios ->
  0 <= c -> c + Z.of_nat (length ios) < thresh ->
  probe_loop thresh c ios = Probing (c + Z.of_nat (length ios)).
Proof.
  intros Hall; revert c; induction Hall as [|io ios Hio _ IH]; intros c Hc Hlt.
  - simpl; f_equal; lia.
  - simpl in *. rewrite (probe_round_missed _ _ _ Hio).
    destruct (Z.eqb_spec (c + 1) thresh) as [E|_]; [lia|].
    rewrite IH by lia. f_equal; lia.
Qed.

(** The miss that brings the counter to the threshold ends the loop. *)
Lemma probe_loop_misses_reach thresh c ios rest :
  Forall missed ios ->
  0 <= c -> ios <> [] -> c + Z.of_nat (length ios) = thresh ->
  probe_loop thresh c (ios ++ rest) = Dead.
Proof.
  intros Hall; revert c; induction Hall as [|io ios Hio _ IH]; intros c Hc Hne Hlen;
    [congruence|].
  simpl in *. rewrite (probe_round_missed _ _ _ Hio).
  destruct (Z.eqb_spec (c + 1) thresh) as [E|NE]; [reflexivity|].
  apply IH; [lia| |lia].
  intros ->; simpl in *; lia.
Qed.

(** [remove] after [append] of the same item always finds it. *)
Lemma remove_app_same (a : address) (l : list address) :
  exists l', remove a (l ++ [a]) = Ret l' /\ (a ∉ l -> l' = l).
Proof.
  induction l as [|y l (l' & Hl' & Hfresh)]; simpl.
  - rewrite decide_True by reflexivity. eauto.
  - destruct (decide (a = y)) as [->|Hne].
    + eexists; split; [reflexivity|]. intros Hnot; exfalso; apply Hnot; left.
    + rewrite Hl'. eexists; split; [reflexivity|].
      intros Hnot. f_equal. apply Hfresh. intros Hin; apply Hnot; right; exact Hin.
Qed.

End probing.

(** X20.  Taking as misses the passes the loop counts (an error was raised,
    or a non-empty reply other than the acknowledgment came back): with a
    positive threshold, as many consecutive misses as the threshold, counted
    from a counter at 0 (at the start of the loop or after a reset), make
    [probe_health] leave the loop: the node's address is taken off [clients]
    and appended to [unhealthy_clients].  And a pass that receives the exact
    acknowledgment sets the counter to 0 and continues: after fewer misses
    than the threshold followed by an acknowledgment the node is still
    probed, with counter 0 and both lists as they were. *)
Theorem probe_health_threshold (hs : HealthServer.t) (a : address)
        (before ios rest : list probe_io) :
  (0 < DEAD_THRESH hs ->
   probe_loop (DEAD_THRESH hs) 0 before = Probing 0 ->
   length ios = Z.to_nat (DEAD_THRESH hs) ->
   Forall missed ios ->
   probe_loop (DEAD_THRESH hs) 0 (before ++ ios ++ rest) = Dead /\
   exists cs,
     remove a (clients hs ++ [a]) = Ret cs /\
     (a ∉ clients hs -> cs = clients hs) /\
     probe_health (before ++ ios ++ rest) a hs =
       Returned {| clients := cs;
                   unhealthy_clients := unhealthy_clients hs ++ [a];
                   DEAD_THRESH := DEAD_THRESH hs |})
  /\
  (forall io, classify io = Acked ->
     (forall c, probe_round (DEAD_THRESH hs) c io = (Continue, 0)) /\
     (Forall missed ios ->
      Z.of_nat (length ios) < DEAD_THRESH hs ->
      probe_health (ios ++ [io]) a hs =
        StillProbing {| clients := clients hs ++ [a];
                        unhealthy_clients := unhealthy_clients hs;
                        DEAD_THRESH := DEAD_THRESH hs |} 0)).
Proof.
  split.
  - intros Hpos Hbefore Hlen Hall.
    assert (Hdead : probe_loop (DEAD_THRESH hs) 0 (before ++ ios ++ rest) = Dead).
    { rewrite probe_loop_app, Hbefore.
      apply probe_loop_misses_reach; [exact Hall|lia| |lia].
      intros ->; simpl in Hlen; lia. }
    split; [exact Hdead|].
    destruct (remove_app_same a (clients hs)) as (cs & Hcs & Hfresh).
    exists cs; repeat split; [exact Hcs|exact Hfresh|].
    unfold probe_health; cbn [DEAD_THRESH clients unhealthy_clients].
    rewrite Hdead. unfold declare_dead; cbn [DEAD_THRESH clients unhealthy_clients].
    rewrite Hcs. reflexivity.
  - intros io Hack; split.
    + intros c; apply probe_round_acked, Hack.
    + intros Hall Hlt. unfold probe_health; cbn [DEAD_THRESH clients unhealthy_clients].
      rewrite probe_loop_app, probe_loop_misses_below by (assumption || lia).
      simpl. rewrite (probe_round_acked _ _ _ Hack). reflexivity.
Qed.

Lemma probe_health_threshold_witness :
  probe_health ([io_timeout; io_ack] ++ [io_timeout; io_nak; io_broken_pipe] ++ [io_ack])
               node_a (HealthServer.init 3)
  = Returned {| clients := []; unhealthy_clients := [node_a]; DEAD_THRESH := 3 |}.
Proof.
  destruct (probe_health_threshold (HealthServer.init 3) node_a
              [io_timeout; io_ack] [io_timeout; io_nak; io_broken_pipe] [io_ack])
    as [Hdead _].
  destruct Hdead as (_ & cs & _ & Hfresh & Hres).
  - reflexivity.
  - reflexivity.
  - reflexivity.
  - repeat (constructor; [first [left; reflexivity | right; reflexivity]|]). constructor.
  - rewrite Hres, Hfresh; [reflexivity|]. simpl. apply not_elem_of_nil.
Defined.

(** C1 (the code departs from it).  A probe that was sent in full and got
    back the empty byte string, as [recv] returns it once the peer has
    closed, is a probe that was not acknowledged: the reply differs from the
    acknowledgment.  Yet with a threshold other than 0, any number of such
    passes in a row, the threshold and more, leave the node where it was:
    still probed, counter at 0, on the active list and not on the unhealthy
    list. *)
Theorem unacknowledged_empty_replies_keep_node_alive (hs : HealthServer.t) (a : address)
        (ios : list probe_io) :
  DEAD_THRESH hs <> 0 ->
  Forall (fun io => send_r io = Ret ACK_HEADER /\ settimeout_r io = Ret tt /\
                    recv_r io = Ret []) ios ->
  Forall reply_differs ios /\
  probe_health ios a hs =
    StillProbing {| clients := clients hs ++ [a];
                    unhealthy_clients := unhealthy_clients hs;
                    DEAD_THRESH := DEAD_THRESH hs |} 0.
Proof.
  intros Hnz Hall. split.
  - eapply Forall_impl; [exact Hall|].
    intros io (Hs & Ht & Hr). repeat split; [exact Hs|exact Ht|].
    exists []. split; [exact Hr|discriminate].
  - unfold probe_health. cbn [DEAD_THRESH].
    assert (Hloop : probe_loop (DEAD_THRESH hs) 0 ios = Probing 0).
    { induction Hall as [|io ios' (Hs & Ht & Hr) _ IH]; [reflexivity|].
      cbn [probe_loop]. rewrite probe_round_classify.
      assert (Hv : classify io = EmptyReply).
      { unfold classify. rewrite Hs, Ht, Hr.
        rewrite bool_decide_eq_true_2 by reflexivity. reflexivity. }
      rewrite Hv. destruct (Z.eqb_spec 0 (DEAD_THRESH hs)) as [E|_]; [congruence|].
      exact IH. }
    rewrite Hloop. reflexivity.
Qed.

Lemma unacknowledged_empty_replies_keep_node_alive_witness :
  Forall reply_differs [io_closed_by_peer; io_closed_by_peer; io_closed_by_peer] /\
  probe_health [io_closed_by_peer; io_closed_by_peer; io_closed_by_peer] node_a
               (HealthServer.init 3)
  = StillProbing {| clients := [node_a]; unhealthy_clients := []; DEAD_THRESH := 3 |} 0.
Proof.
  apply (unacknowledged_empty_replies_keep_node_alive (HealthServer.init 3) node_a
           [io_closed_by_peer; io_closed_by_peer; io_closed_by_peer]).
  - discriminate.
  - repeat (constructor; [repeat split; reflexivity|]). constructor.
Defined.

(** C5, as stated, fails twice.  A pass whose reply is the empty byte string
    (the peer closed the connection) has reply bytes that differ from the
    acknowledgment, yet the counter stays where it was; and a pass whose send
    raises is neither a receive timeout nor a wrong reply, yet the counter
    goes up by one. *)
Lemma probe_round_receive_rule_counterexample :
  (reply_differs io_closed_by_peer /\ (probe_round 3 1 io_closed_by_peer).2 = 1) /\
  (~ no_reply_in_time io_broken_pipe /\ ~ reply_differs io_broken_pipe /\
   (probe_round 3 1 io_broken_pipe).2 = 2).
Proof.
  split; [split|split; [|split]].
  - unfold reply_differs; repeat split; try reflexivity.
    exists []; split; [reflexivity|discriminate].
  - reflexivity.
  - intros (H & _); discriminate H.
  - intros (H & _); discriminate H.
  - reflexivity.
Qed.

(** C5, amended.  Leaving aside the pass that receives an empty reply, a pass
    entered with a non-negative counter raises the counter by exactly 1 if and
    only if an error was raised in it (by the send, by setting the timeout or
    by the receive, which includes the receive timeout) or a non-empty reply
    other than the 3-byte acknowledgment came back; an acknowledged pass sets
    it to 0 and a pass with a short send leaves it unchanged. *)
Theorem probe_round_counter (thresh c : Z) (io : probe_io) :
  0 <= c -> classify io <> EmptyReply ->
  ((probe_round thresh c io).2 = c + 1 <-> missed io) /\
  (classify io = Acked -> (probe_round thresh c io).2 = 0) /\
  (classify io = ShortSend -> (probe_round thresh c io).2 = c).
Proof.
  intros Hc Hne. rewrite probe_round_classify. unfold missed.
  destruct (classify io); cbn [snd]; try congruence;
    (split; [split; [intros ?; try lia; auto | intros [?|?]; congruence]
            | split; intros ?; congruence]).
Qed.

Lemma probe_round_counter_witness :
  (probe_round 3 0 io_timeout).2 = 1 /\ (probe_round 3 2 io_ack).2 = 0.
Proof.
  split.
  - apply (probe_round_counter 3 0 io_timeout); [lia|discriminate|].
    left; reflexivity.
  - apply (probe_round_counter 3 2 io_ack); [lia|discriminate|reflexivity].
Defined.

(** C6, as stated, fails for a send that transmits fewer bytes than the
    probe has: the loop is left at once, without counting, and the node is
    declared dead on that single pass. *)
Lemma short_send_counterexample :
  probe_round 3 0 io_short_send = (Break, 0) /\
  probe_health [io_short_send] node_a (HealthServer.init 3)
  = Returned {| clients := []; unhealthy_clients := [node_a]; DEAD_THRESH := 3 |}.
Proof. split; reflexivity. Qed.

(** C6, amended.  A send that raises is one miss: the counter goes up by 1 and
    the loop is left only if the counter thereby equals the threshold.  A send
    that returns a byte count other than the length of the probe ends the
    loop in that very pass, with the counter untouched, whatever the counter
    and the threshold are. *)
Theorem send_failure_round (thresh c : Z) (e : exn) (n : Z)
        (st : result unit) (rv : result bytes) (rest : list probe_io) :
  probe_round thresh c {| send_r := Raise e; settimeout_r := st; recv_r := rv |}
  = (if c + 1 =? thresh then Break else Continue, c + 1)
  /\
  (n <> ACK_HEADER ->
   probe_round thresh c {| send_r := Ret n; settimeout_r := st; recv_r := rv |} = (Break, c) /\
   probe_loop thresh c ({| send_r := Ret n; settimeout_r := st; recv_r := rv |} :: rest) = Dead).
Proof.
  split.
  - rewrite probe_round_classify. reflexivity.
  - intros Hn.
    assert (H : probe_round thresh c {| send_r := Ret n; settimeout_r := st; recv_r := rv |}
                = (Break, c)).
    { rewrite probe_round_classify. unfold classify; cbn [send_r].
      rewrite bool_decide_eq_false_2 by assumption. reflexivity. }
    split; [exact H|]. cbn [probe_loop]. rewrite H. reflexivity.
Qed.

Lemma send_failure_round_witness :
  probe_round 3 0 io_broken_pipe = (Continue, 1) /\
  probe_loop 3 0 (io_short_send :: [io_ack]) = Dead.
Proof.
  split.
  - apply (send_failure_round 3 0 OSError 2 (Ret tt) (Raise OSError) []).
  - apply (send_failure_round 3 0 OSError 2 (Ret tt) (Ret ACK_MESSAGE) [io_ack]).
    discriminate.
Defined.

(** C8.  [report_health] returns what the upstream answered.  A truthy answer
    empties [unhealthy_clients]; a falsy answer or an exception leaves the
    whole state as it was.  Hence an entry that was on the list before the
    call and is gone after it was dropped under a truthy answer. *)
Theorem report_health_keeps_unacknowledged (message : value)
        (upstream : value -> result value) (hs : HealthServer.t) :
  (report_health message upstream hs).1 = upstream message /\
  clients (report_health message upstream hs).2 = clients hs /\
  match upstream message with
  | Ret response =>
      if truthy response
      then unhealthy_clients (report_health message upstream hs).2 = []
      else (report_health message upstream hs).2 = hs
  | Raise _ => (report_health message upstream hs).2 = hs
  end /\
  (forall a : address,
      a ∈ unhealthy_clients hs ->
      a ∉ unhealthy_clients (report_health message upstream hs).2 ->
      exists response, upstream message = Ret response /\ truthy response = true).
Proof.
  unfold report_health.
  destruct (upstream message) as [response|e]; cbn [fst snd].
  - destruct (truthy response) eqn:Ht; cbn [clients unhealthy_clients];
      repeat split; eauto; intros a Hin Hout; contradiction.
  - repeat split; intros a Hin Hout; contradiction.
Qed.

(** ** The cache router *)

Ltac run_method :=
  unfold CacheServer.get, CacheServer.set, CacheServer.delete, CacheServer.increment,
    CacheServer.decrement, CacheServer.add, CacheServer.stats,
    CacheServer._delist_unavailable_server, CacheServer.register,
    CacheServer._get_server_for_key, CacheServer.send_receive,
    CacheServer.forget, mbind, mret, CacheServer.M_bind, CacheServer.M_ret,
    CacheServer.bind, CacheServer.ret, CacheServer.gets, CacheServer.lift,
    CacheServer.modify, CacheServer.transmit, CacheServer.logging_info,
    CacheServer.print, CacheServer.format_count_and_ratio in *;
  cbn beta iota delta [CacheServer.self CacheServer.backlog CacheServer.sent
    CacheServer.journal CacheServer.stdout CacheServer.ring CacheServer.clients
    CacheServer.cache_hits CacheServer.query_count CacheServer.num_virtual_replicas
    CacheServer.expire fst snd] in *.

Section routing.

Import CacheServer.

Context {CH : Ring.ConsistentHashing}.

Implicit Types (w : world) (c : call) (cs : list call) (key : string).

(** What a call that talks to a backend leaves behind, besides the
    statistics: ring, registry and backlog are as before. *)
Lemma get_effect key answer w :
  get key answer w =
  match Ring.get_node key (ring (self w)) with
  | Raise e => (Raise e, w)
  | Ret node =>
      match answer with
      | Raise e =>
          (Raise e,
           {| self := self w; backlog := backlog w;
              sent := sent w ++ [(node, VTuple [VStr "get"; VStr key])];
              journal := journal w; stdout := stdout w |})
      | Ret response =>
          (Ret response,
           {| self := {| num_virtual_replicas := num_virtual_replicas (self w);
                         expire := expire (self w);
                         ring := ring (self w);
                         clients := clients (self w);
                         cache_hits := cache_hits (self w) + int_of_bool (ne_False response);
                         query_count := query_count (self w) + 1 |};
              backlog := backlog w;
              sent := sent w ++ [(node, VTuple [VStr "get"; VStr key])];
              journal := journal w ++ [VTuple [VStr "get"; VStr key]];
              stdout := stdout w |})
      end
  end.
Proof.
  run_method. destruct (Ring.get_node key (ring (self w))); [|reflexivity].
  run_method. destruct answer; reflexivity.
Qed.

Lemma add_effect key diff answer w :
  add key diff answer w =
  match Ring.get_node key (ring (self w)) with
  | Raise e => (Raise e, w)
  | Ret node =>
      match answer with
      | Raise e =>
          (Raise e,
           {| self := self w; backlog := backlog w;
              sent := sent w ++ [(node, VTuple [VStr "add"; VStr key; VInt diff])];
              journal := journal w; stdout := stdout w |})
      | Ret response =>
          (Ret response,
           {| self := self w; backlog := backlog w;
              sent := sent w ++ [(node, VTuple [VStr "add"; VStr key; VInt diff])];
              journal := journal w ++ [VTuple [VStr "add"; VStr key; VInt diff]];
              stdout := stdout w |})
      end
  end.
Proof.
  run_method. destruct (Ring.get_node key (ring (self w))); [|reflexivity].
  run_method. destruct answer; reflexivity.
Qed.

(** Every call other than [get] and [spawn] returns with the server's
    registry and statistics as they were. *)
Lemma exec_other_self c w r w' :
  exec c w = Some (r, w') ->
  match c with Get _ _ | Spawn _ => True | _ =>
    clients (self w') = clients (self w) /\
    num_virtual_replicas (self w') = num_virtual_replicas (self w) /\
    cache_hits (self w') = cache_hits (self w) /\
    query_count (self w') = query_count (self w)
  end.
Proof.
  destruct c; cbn [exec]; try exact (fun _ => I); intros E; run_method;
    try (destruct (Ring.get_node key (ring (self w))); run_method;
         [destruct answer|]);
    try destruct (true_div _ _);
    simplify_eq; repeat split; reflexivity.
Qed.

Lemma exec_get_self key answer w r w' :
  exec (Get key answer) w = Some (r, w') ->
  clients (self w') = clients (self w) /\
  num_virtual_replicas (self w') = num_virtual_replicas (self w) /\
  ((exists v, r = Ret v /\
              cache_hits (self w') = cache_hits (self w) + int_of_bool (ne_False v) /\
              query_count (self w') = query_count (self w) + 1) \/
   (exists e, r = Raise e /\
              cache_hits (self w') = cache_hits (self w) /\
              query_count (self w') = query_count (self w))).
Proof.
  cbn [exec]. rewrite get_effect. intros E.
  destruct (Ring.get_node key (ring (self w))); [destruct answer|];
    simplify_eq; cbn; repeat split; eauto 10.
Qed.

(** [spawn] on a non-empty backlog with a send that succeeds. *)
Lemma spawn_effect client_socket client_address waiting w :
  backlog w = (client_socket, client_address) :: waiting ->
  spawn (Ret tt) w =
  Some (Ret tt,
        {| self := {| num_virtual_replicas := num_virtual_replicas (self w);
                      expire := expire (self w);
                      ring := Ring.add_node client_socket (num_virtual_replicas (self w))
                                            (ring (self w));
                      clients := <[size (clients (self w)) := (client_socket, client_address)]>
                                   (clients (self w));
                      cache_hits := cache_hits (self w);
                      query_count := query_count (self w) |};
           backlog := waiting;
           sent := sent w ++ [(client_socket, VInt (Z.of_nat (size (clients (self w)))))];
           journal := journal w; stdout := stdout w |}).
Proof. intros H. unfold spawn. rewrite H. reflexivity. Qed.

Lemma exec_spawn_self send_r w r w' :
  exec (Spawn send_r) w = Some (r, w') ->
  exists client_socket client_address,
    clients (self w') = <[size (clients (self w)) := (client_socket, client_address)]>
                          (clients (self w)) /\
    num_virtual_replicas (self w') = num_virtual_replicas (self w) /\
    cache_hits (self w') = cache_hits (self w) /\
    query_count (self w') = query_count (self w).
Proof.
  cbn [exec]. unfold spawn.
  destruct (backlog w) as [|[client_socket client_address] waiting]; [discriminate|].
  intros E. run_method.
  destruct send_r; cbn in E; simplify_eq; exists client_socket, client_address;
    repeat split; reflexivity.
Qed.

End routing.

Section registry.

Context {A : Type}.

Implicit Types (m : gmap nat A) (log : list (socket * A)).

Lemma ids_sequential_empty : ids_sequential (∅ : gmap nat A).
Proof.
  intros i. rewrite lookup_empty, map_size_empty. split.
  - intros [x Hx]; discriminate.
  - lia.
Qed.

Lemma ids_sequential_fresh m : ids_sequential m -> m !! size m = None.
Proof.
  intros H. destruct (m !! size m) eqn:E; [|reflexivity].
  assert (size m < size m)%nat by (apply H; eauto). lia.
Qed.

(** [d[len(d)] = x] keeps the ids sequential and makes the dict one longer. *)
Lemma ids_sequential_insert m x :
  ids_sequential m ->
  size (<[size m := x]> m) = S (size m) /\ ids_sequential (<[size m := x]> m).
Proof.
  intros H. pose proof (ids_sequential_fresh m H) as Hfresh.
  assert (Hsize : size (<[size m := x]> m) = S (size m))
    by (apply map_size_insert_None; exact Hfresh).
  split; [exact Hsize|].
  intros i. rewrite Hsize, lookup_insert.
  destruct (decide (size m = i)) as [<-|Hne].
  - split; [lia|eauto].
  - rewrite (H i). lia.
Qed.

Lemma messages_on_app s log log' :
  messages_on s (log ++ log') = messages_on s log ++ messages_on s log'.
Proof. unfold messages_on. rewrite filter_app, fmap_app. reflexivity. Qed.

Lemma messages_on_fresh s log :
  (forall msg, msg ∈ log -> msg.1 <> s) -> messages_on s log = [].
Proof.
  unfold messages_on. induction log as [|msg log IH]; intros H; [reflexivity|].
  rewrite filter_cons_False.
  - apply IH. intros msg' Hin. apply H. right. exact Hin.
  - apply H. left.
Qed.

End registry.

Section routing_invariants.

Import CacheServer.

Context {CH : Ring.ConsistentHashing}.

Implicit Types (w : world) (c : call) (cs : list call) (key : string).

(** What one call can do to the registry and to the statistics. *)
Lemma exec_step c w r w' :
  exec c w = Some (r, w') ->
  num_virtual_replicas (self w') = num_virtual_replicas (self w) /\
  (clients (self w') = clients (self w) \/
   exists conn, c = Spawn conn.1 /\
     clients (self w') = <[size (clients (self w)) := conn.2]> (clients (self w))) /\
  ((cache_hits (self w') = cache_hits (self w) /\
    query_count (self w') = query_count (self w)) \/
   (exists key answer v, c = Get key answer /\ r = Ret v /\
      cache_hits (self w') = cache_hits (self w) + int_of_bool (ne_False v) /\
      query_count (self w') = query_count (self w) + 1)).
Proof.
  intros E. destruct c;
    try (pose proof (exec_other_self _ _ _ _ E) as (? & ? & ? & ?); cbn in *; auto 10).
  - destruct (exec_spawn_self _ _ _ _ E) as (s & a & ? & ? & ? & ?).
    split; [assumption|]. split; [|auto].
    right. eexists (_, (s, a)). split; [reflexivity|assumption].
  - destruct (exec_get_self _ _ _ _ _ E) as (? & ? & [(v & -> & ? & ?)|(e & -> & ? & ?)]).
    + split; [assumption|]. split; [auto|]. right. eauto 10.
    + auto.
Qed.

Lemma exec_registry c w r w' :
  exec c w = Some (r, w') ->
  ids_sequential (clients (self w)) -> ids_sequential (clients (self w')).
Proof.
  intros E Hseq. destruct (exec_step _ _ _ _ E) as (_ & [->|(conn & _ & ->)] & _).
  - exact Hseq.
  - apply ids_sequential_insert, Hseq.
Qed.

Lemma run_registry cs w :
  ids_sequential (clients (self w)) ->
  ids_sequential (clients (self (run cs w))) /\
  num_virtual_replicas (self (run cs w)) = num_virtual_replicas (self w).
Proof.
  revert w; induction cs as [|c cs IH]; intros w Hseq; cbn [run]; [auto|].
  destruct (exec c w) as [[r w1]|] eqn:E; [|auto].
  destruct (IH w1 (exec_registry _ _ _ _ E Hseq)) as [H1 H2].
  split; [exact H1|]. rewrite H2. apply (exec_step _ _ _ _ E).
Qed.

Lemma exec_counters c w r w' :
  exec c w = Some (r, w') ->
  cache_hits (self w) <= cache_hits (self w') /\
  query_count (self w) <= query_count (self w') /\
  cache_hits (self w') - cache_hits (self w) <= query_count (self w') - query_count (self w).
Proof.
  intros E.
  destruct (exec_step _ _ _ _ E) as (_ & _ & [[-> ->]|(key & answer & v & _ & _ & -> & ->)]).
  - lia.
  - unfold int_of_bool. destruct (ne_False v); lia.
Qed.

Lemma run_counters cs w :
  cache_hits (self w) <= cache_hits (self (run cs w)) /\
  query_count (self w) <= query_count (self (run cs w)) /\
  cache_hits (self (run cs w)) - cache_hits (self w)
    <= query_count (self (run cs w)) - query_count (self w).
Proof.
  revert w; induction cs as [|c cs IH]; intros w; cbn [run]; [lia|].
  destruct (exec c w) as [[r w1]|] eqn:E; [|lia].
  pose proof (exec_counters _ _ _ _ E). pose proof (IH w1). lia.
Qed.

(** After a run the counters are what the completed [get] calls add up to:
    one query each, and one hit for each result that satisfies
    [result != False]. *)
Lemma run_counts_gets cs w :
  query_count (self (run cs w))
    = query_count (self w) + Z.of_nat (length (get_results cs w)) /\
  cache_hits (self (run cs w))
    = cache_hits (self w) + count_true (ne_False <$> get_results cs w).
Proof.
  revert w; induction cs as [|c cs IH]; intros w; cbn [run get_results].
  - unfold count_true; cbn; lia.
  - destruct (exec c w) as [[r w1]|] eqn:E; [|unfold count_true; cbn; lia].
    destruct (IH w1) as [IHq IHh]. rewrite IHq, IHh.
    destruct (exec_step _ _ _ _ E)
      as (_ & _ & [[Hh Hq]|(key & answer & v & -> & -> & -> & ->)]).
    + rewrite Hh, Hq.
      assert (Hsame : match c, r with
                      | Get _ _, Ret v => v :: get_results cs w1
                      | _, _ => get_results cs w1
                      end = get_results cs w1 \/
                      exists key answer v, c = Get key answer /\ r = Ret v)
        by (destruct c, r; eauto 10).
      destruct Hsame as [->|(key & answer & v & -> & ->)]; [split; reflexivity|].
      destruct (exec_get_self _ _ _ _ _ E)
        as (_ & _ & [(v' & _ & _ & Hq')|(e & He & _)]); [lia|discriminate].
    + rewrite fmap_cons. unfold count_true. cbn [length].
      unfold int_of_bool. destruct (ne_False v).
      * rewrite filter_cons_True by reflexivity. cbn [length]. lia.
      * rewrite filter_cons_False by discriminate. lia.
Qed.

End routing_invariants.

Section routing_claims.

Import CacheServer.

Context {CH : Ring.ConsistentHashing}.

Implicit Types (w : world) (c : call) (cs : list call) (key : string).

(** C2 (the code departs from it).  A [get] that completes with the value
    0, the integer stored under the key, is counted as a query but not as a
    hit, because [0 != False] is false in Python. *)
Theorem get_zero_value_not_counted w key node :
  Ring.get_node key (ring (self w)) = Ret node ->
  (get key (Ret (VInt 0)) w).1 = Ret (VInt 0) /\
  query_count (self (get key (Ret (VInt 0)) w).2) = query_count (self w) + 1 /\
  cache_hits (self (get key (Ret (VInt 0)) w).2) = cache_hits (self w).
Proof.
  intros Hnode. rewrite get_effect, Hnode. cbn. repeat split. lia.
Qed.

(** C3.  In every state the router can reach from its constructor, [spawn]
    with a connection waiting takes exactly that connection off the backlog
    and returns.  The id it assigns is the size of the registry, and the
    ids assigned before are exactly the smaller ones, so it is one greater
    than all of them; the registry maps it to the connection
    and its address; the id is handed to the transport for the new
    connection, on which nothing was sent before, so it is the first message
    there; and the socket is added to the ring with [num_virtual_replicas],
    the constructor's argument. *)
Theorem spawn_registers_one_backend (replicas expire_after : Z) cs
        (client_socket : socket) (client_address : address)
        (waiting : list (socket * address)) :
  let w := run cs (init replicas expire_after) in
  let client_id := size (clients (self w)) in
  backlog w = (client_socket, client_address) :: waiting ->
  (forall msg, msg ∈ sent w -> msg.1 <> client_socket) ->
  exists w',
    spawn (Ret tt) w = Some (Ret tt, w') /\
    backlog w' = waiting /\
    (forall i : nat, is_Some (clients (self w) !! i) <-> (i < client_id)%nat) /\
    clients (self w') = <[client_id := (client_socket, client_address)]> (clients (self w)) /\
    clients (self w') !! client_id = Some (client_socket, client_address) /\
    size (clients (self w')) = S client_id /\
    sent w' = sent w ++ [(client_socket, VInt (Z.of_nat client_id))] /\
    messages_on client_socket (sent w') = [VInt (Z.of_nat client_id)] /\
    ring (self w') = Ring.add_node client_socket replicas (ring (self w)).
Proof.
  intros w client_id Hbacklog Hfresh.
  destruct (run_registry cs (init replicas expire_after)) as [Hseq Hrep];
    [apply ids_sequential_empty|].
  fold w in Hseq, Hrep. cbn in Hrep.
  eexists. split; [apply (spawn_effect _ _ _ _ Hbacklog)|].
  cbn [self backlog sent clients ring]. fold client_id.
  destruct (ids_sequential_insert (clients (self w)) (client_socket, client_address) Hseq)
    as [Hsize _].
  repeat split.
  - intros Hi. apply Hseq, Hi.
  - intros Hi. apply Hseq, Hi.
  - apply lookup_insert_eq.
  - exact Hsize.
  - rewrite messages_on_app, (messages_on_fresh _ _ Hfresh).
    unfold messages_on. rewrite filter_cons_True by reflexivity. reflexivity.
  - rewrite Hrep. reflexivity.
Qed.

(** C7 (the code departs from it).  With [query_count] at 0, [stats] prints
    its first line and then raises [ZeroDivisionError]: the quotient is
    computed without a guard. *)
Theorem stats_divides_by_zero w :
  query_count (self w) = 0 ->
  (stats w).1 = Raise ZeroDivisionError /\
  stdout (stats w).2 = stdout w ++ ["Total queries: "%string] /\
  self (stats w).2 = self w.
Proof.
  intros Hq. run_method. rewrite Hq. cbn. repeat split.
Qed.

(** [stats] never gets to print a ratio: past the division, the format
    string of the second line is ill-formed. *)
Lemma stats_raises w :
  (stats w).1 = Raise ZeroDivisionError \/ (stats w).1 = Raise AttributeError.
Proof.
  run_method. unfold true_div. destruct (query_count (self w)); cbn; auto.
Qed.

(** C9.  [increment] is [add] with 1 and [decrement] is [add] with -1: as
    functions of the state they coincide, and when the ring names a node for
    the key, what is handed to the transport is the [add] command with that
    difference and what is returned is the answer to it. *)
Theorem increment_decrement_are_add key (answer : result value) w :
  increment key answer w = add key 1 answer w /\
  decrement key answer w = add key (-1) answer w /\
  (forall node, Ring.get_node key (ring (self w)) = Ret node ->
     (increment key answer w).1 = answer /\
     sent (increment key answer w).2
       = sent w ++ [(node, VTuple [VStr "add"; VStr key; VInt 1])] /\
     (decrement key answer w).1 = answer /\
     sent (decrement key answer w).2
       = sent w ++ [(node, VTuple [VStr "add"; VStr key; VInt (-1)])]).
Proof.
  split; [reflexivity|]. split; [reflexivity|].
  intros node Hnode. unfold increment, decrement.
  rewrite !add_effect, Hnode. destruct answer; cbn; repeat split.
Qed.

(** C10.  Every state reached from the constructor by calls of the public
    operations (and of [spawn] and the delisting) has
    [0 <= cache_hits <= query_count]; each call preserves that property
    and lowers neither counter, and so does every run. *)
Theorem counters_invariant (replicas expire_after : Z) cs :
  counters_ok (run cs (init replicas expire_after)) /\
  (forall c w r w',
      exec c w = Some (r, w') ->
      (counters_ok w -> counters_ok w') /\
      cache_hits (self w) <= cache_hits (self w') /\
      query_count (self w) <= query_count (self w')) /\
  (forall w,
      (counters_ok w -> counters_ok (run cs w)) /\
      cache_hits (self w) <= cache_hits (self (run cs w)) /\
      query_count (self w) <= query_count (self (run cs w))).
Proof.
  unfold counters_ok. repeat split.
  - pose proof (run_counters cs (init replicas expire_after)) as H. cbn in H. lia.
  - pose proof (run_counters cs (init replicas expire_after)) as H. cbn in H. lia.
  - pose proof (exec_counters _ _ _ _ H). lia.
  - pose proof (exec_counters _ _ _ _ H). lia.
  - pose proof (exec_counters _ _ _ _ H). lia.
  - pose proof (exec_counters _ _ _ _ H). lia.
  - pose proof (run_counters cs w). lia.
  - pose proof (run_counters cs w). lia.
  - pose proof (run_counters cs w). lia.
  - pose proof (run_counters cs w). lia.
Qed.

End routing_claims.

(** ** Closed instances *)

Lemma get_zero_value_not_counted_witness :
  (CacheServer.get "x" (Ret (VInt 0)) one_backend).1 = Ret (VInt 0) /\
  CacheServer.query_count (CacheServer.self (CacheServer.get "x" (Ret (VInt 0)) one_backend).2) = 1 /\
  CacheServer.cache_hits (CacheServer.self (CacheServer.get "x" (Ret (VInt 0)) one_backend).2) = 0.
Proof.
  apply (@get_zero_value_not_counted sample_ring one_backend "x" 7).
  reflexivity.
Defined.

Lemma spawn_registers_one_backend_witness :
  exists w',
    CacheServer.spawn (Ret tt)
      (CacheServer.run [CacheServer.Connect 8 ("10.0.0.8"%string, 4100)] one_backend)
    = Some (Ret tt, w') /\
    CacheServer.backlog w' = [] /\
    CacheServer.clients (CacheServer.self w') !! 1%nat = Some (8, ("10.0.0.8"%string, 4100)) /\
    messages_on 8 (CacheServer.sent w') = [VInt 1].
Proof.
  destruct (@spawn_registers_one_backend sample_ring 5 0
              [CacheServer.Connect 7 node_a; CacheServer.Spawn (Ret tt);
               CacheServer.Connect 8 ("10.0.0.8"%string, 4100)]
              8 ("10.0.0.8"%string, 4100) [])
    as (w' & Hspawn & Hbacklog & _ & _ & Hlookup & _ & _ & Hfirst & _).
  - reflexivity.
  - intros msg Hin.
    change (msg ∈ [(7, VInt 0)]) in Hin.
    apply list_elem_of_singleton in Hin. rewrite Hin. discriminate.
  - exists w'. repeat split; assumption.
Defined.

Lemma stats_divides_by_zero_witness :
  (CacheServer.stats (@CacheServer.init sample_ring 5 0)).1 = Raise ZeroDivisionError /\
  CacheServer.stdout (CacheServer.stats (@CacheServer.init sample_ring 5 0)).2
    = ["Total queries: "%string].
Proof.
  destruct (@stats_divides_by_zero sample_ring (CacheServer.init 5 0)) as (H1 & H2 & _).
  - reflexivity.
  - split; [exact H1|exact H2].
Defined.

Lemma increment_decrement_are_add_witness :
  (CacheServer.increment "n" (Ret (VInt 1)) one_backend).1 = Ret (VInt 1) /\
  CacheServer.sent (CacheServer.increment "n" (Ret (VInt 1)) one_backend).2
    = [(7, VInt 0); (7, VTuple [VStr "add"; VStr "n"; VInt 1])] /\
  CacheServer.sent (CacheServer.decrement "n" (Ret (VInt 1)) one_backend).2
    = [(7, VInt 0); (7, VTuple [VStr "add"; VStr "n"; VInt (-1)])].
Proof.
  destruct (@increment_decrement_are_add sample_ring "n" (Ret (VInt 1)) one_backend)
    as (_ & _ & H).
  destruct (H 7) as (H1 & H2 & _ & H4).
  - reflexivity.
  - repeat split; assumption.
Defined.

Lemma counters_invariant_witness :
  counters_ok
    (CacheServer.run [CacheServer.Get "x" (Ret (VInt 4));
                      CacheServer.Get "y" (Ret (VBool false));
                      CacheServer.Stats] one_backend) /\
  CacheServer.query_count (CacheServer.self one_backend)
    <= CacheServer.query_count
         (CacheServer.self (CacheServer.get "x" (Ret (VInt 4)) one_backend).2).
Proof.
  split.
  - apply (@counters_invariant sample_ring 5 0
             [CacheServer.Connect 7 node_a; CacheServer.Spawn (Ret tt);
              CacheServer.Get "x" (Ret (VInt 4));
              CacheServer.Get "y" (Ret (VBool false));
              CacheServer.Stats]).
  - destruct (@counters_invariant sample_ring 5 0 []) as (_ & Hstep & _).
    apply (Hstep (CacheServer.Get "x" (Ret (VInt 4))) one_backend
                 (CacheServer.get "x" (Ret (VInt 4)) one_backend).1
                 (CacheServer.get "x" (Ret (VInt 4)) one_backend).2).
    reflexivity.
Defined.

(** C4, as stated, fails: after the router has delisted the one backend it
    had registered, the ring holds no position of it any more, but the
    registry still maps id 0 to its connection and address. *)
Lemma delist_keeps_registry_counterexample :
  CacheServer.clients (CacheServer.self one_backend) !! 0%nat = Some (7, node_a) /\
  CacheServer.ring (CacheServer.self one_backend) <> [] /\
  CacheServer.ring
    (CacheServer.self (CacheServer._delist_unavailable_server 7 one_backend).2) = [] /\
  CacheServer.clients
    (CacheServer.self (CacheServer._delist_unavailable_server 7 one_backend).2) !! 0%nat
  = Some (7, node_a).
Proof.
  split; [reflexivity|]. split; [discriminate|]. split; reflexivity.
Qed.

(** C4, amended.  Delisting a backend removes it from the ring, through the
    ring's [remove_node], and from nothing else: the registry, like the rest
    of the router's state, is left as it was.  On a ring kept by positions no
    position of the delisted socket remains. *)
Theorem delist_removes_from_ring_only :
  (forall (CH : Ring.ConsistentHashing) (client_socket : socket) (w : CacheServer.world),
      let out := CacheServer._delist_unavailable_server client_socket w in
      out.1 = Ret tt /\
      CacheServer.ring (CacheServer.self out.2)
        = Ring.remove_node client_socket (CacheServer.ring (CacheServer.self w)) /\
      CacheServer.clients (CacheServer.self out.2) = CacheServer.clients (CacheServer.self w) /\
      CacheServer.cache_hits (CacheServer.self out.2)
        = CacheServer.cache_hits (CacheServer.self w) /\
      CacheServer.query_count (CacheServer.self out.2)
        = CacheServer.query_count (CacheServer.self w) /\
      CacheServer.sent out.2 = CacheServer.sent w /\
      CacheServer.backlog out.2 = CacheServer.backlog w)
  /\
  (forall (hash : string -> Z) (client_socket : socket)
          (w : @CacheServer.world (Ring.by_positions hash)),
      Forall (fun p : Z * socket => p.2 <> client_socket)
             (CacheServer.ring
                (CacheServer.self (CacheServer._delist_unavailable_server client_socket w).2))).
Proof.
  split.
  - intros CH client_socket w. cbn. repeat split.
  - intros hash client_socket w. cbn. unfold Ring.positions_remove_node.
    apply Forall_forall. intros p Hp. apply list_elem_of_filter in Hp. apply Hp.
Qed.

(** ** Further properties of the probing loop *)

Section probing_more.

Implicit Types (io : probe_io) (ios : list probe_io) (c thresh : Z).

Lemma probe_loop_range thresh c ios c' :
  0 < thresh -> 0 <= c < thresh ->
  probe_loop thresh c ios = Probing c' -> 0 <= c' < thresh.
Proof.
  intros Hpos. revert c. induction ios as [|io ios IH]; intros c Hc; cbn [probe_loop].
  - intros [= <-]. exact Hc.
  - rewrite probe_round_classify.
    destruct (classify io); try discriminate;
      try (destruct (Z.eqb_spec (c + 1) thresh); [discriminate|]);
      try (destruct (Z.eqb_spec c thresh); [discriminate|]);
      apply IH; lia.
Qed.

Lemma probe_loop_few_misses thresh c ios :
  Forall (fun io => classify io <> ShortSend) ios ->
  0 <= c -> c + Z.of_nat (length (filter missed ios)) < thresh ->
  exists c', probe_loop thresh c ios = Probing c' /\
             0 <= c' <= c + Z.of_nat (length (filter missed ios)).
Proof.
  intros Hall; revert c; induction Hall as [|io ios Hio _ IH]; intros c Hc Hlt;
    cbn [probe_loop].
  - exists c. split; [reflexivity|]. cbn. lia.
  - rewrite probe_round_classify.
    destruct (decide (missed io)) as [Hm|Hm].
    + rewrite filter_cons_True in * by assumption. cbn [length] in *.
      assert (E : (if c + 1 =? thresh then Break else Continue) = Continue)
        by (destruct (Z.eqb_spec (c + 1) thresh); [lia|reflexivity]).
      destruct Hm as [-> | ->]; rewrite E;
        (destruct (IH (c + 1)) as (c' & -> & Hc'); [lia|lia|]; exists c'; split;
         [reflexivity|lia]).
    + rewrite filter_cons_False in * by assumption.
      unfold missed in Hm.
      destruct (classify io) eqn:Hv; try (exfalso; apply Hm; auto; fail);
        try contradiction.
      * destruct (IH 0) as (c' & -> & Hc'); [lia|lia|]. exists c'; split;
          [reflexivity|lia].
      * destruct (Z.eqb_spec c thresh); [lia|].
        destruct (IH c) as (c' & -> & Hc'); [lia|lia|]. exists c'; split;
          [reflexivity|lia].
Qed.

Lemma probe_loop_skip_empty thresh c ios :
  thresh <> 0 -> c <> thresh ->
  probe_loop thresh c (filter (fun io => classify io <> EmptyReply) ios)
  = probe_loop thresh c ios.
Proof.
  intros Hnz. revert c. induction ios as [|io ios IH]; intros c Hc; [reflexivity|].
  destruct (decide (classify io = EmptyReply)) as [He|He].
  - rewrite filter_cons_False by (intros H; apply H; exact He).
    cbn [probe_loop]. rewrite probe_round_classify, He.
    destruct (Z.eqb_spec c thresh); [contradiction|]. apply IH, Hc.
  - rewrite filter_cons_True by exact He.
    cbn [probe_loop]. rewrite probe_round_classify.
    destruct (classify io); try contradiction; try reflexivity;
      try (destruct (Z.eqb_spec (c + 1) thresh); [reflexivity|]);
      apply IH; auto.
Qed.

Lemma probe_loop_no_threshold thresh c ios :
  thresh <= 0 -> 0 <= c ->
  Forall (fun io => classify io = Acked \/ missed io) ios ->
  exists c', probe_loop thresh c ios = Probing c' /\ 0 <= c'.
Proof.
  intros Hle Hc Hall. revert c Hc.
  induction Hall as [|io ios Hio _ IH]; intros c Hc; cbn [probe_loop].
  - eauto.
  - rewrite probe_round_classify.
    destruct Hio as [-> | [-> | ->]];
      try (destruct (Z.eqb_spec (c + 1) thresh); [lia|]);
      apply IH; lia.
Qed.

(** What [remove] does to a list. *)
Lemma remove_Permutation (a : address) (l l' : list address) :
  remove a l = Ret l' -> l ≡ₚ a :: l'.
Proof.
  revert l'. induction l as [|y l IH]; intros l'; cbn [remove]; [discriminate|].
  destruct (decide (a = y)) as [->|Hne].
  - intros [= ->]. reflexivity.
  - destruct (remove a l) as [r|e]; [|discriminate].
    intros [= <-]. rewrite (IH r eq_refl). apply Permutation_swap.
Qed.

Lemma remove_elem_of (a : address) (l : list address) :
  a ∈ l -> exists l', remove a l = Ret l'.
Proof.
  induction l as [|y l IH]; intros Hin; [inversion Hin|]. cbn [remove].
  destruct (decide (a = y)) as [->|Hne]; [eauto|].
  destruct IH as [l' ->]; [|eauto].
  apply elem_of_cons in Hin as [?|?]; [contradiction|assumption].
Qed.

End probing_more.

(** X1.  With a positive threshold the counter of a node that is still being
    probed lies between 0 and the threshold minus one, whatever the socket
    has answered so far. *)
Theorem probing_counter_in_range (hs hs' : HealthServer.t) (a : address)
        (ios : list probe_io) (c : Z) :
  0 < DEAD_THRESH hs ->
  probe_health ios a hs = StillProbing hs' c ->
  0 <= c < DEAD_THRESH hs.
Proof.
  intros Hpos. unfold probe_health. cbn [DEAD_THRESH].
  destruct (probe_loop (DEAD_THRESH hs) 0 ios) as [c'|] eqn:E.
  - intros [= _ <-]. apply (probe_loop_range _ 0 ios c' Hpos); [lia|exact E].
  - unfold declare_dead. destruct (remove _ _); discriminate.
Qed.

Lemma probing_counter_in_range_witness :
  0 <= 2 < DEAD_THRESH (HealthServer.init 3).
Proof.
  apply (probing_counter_in_range (HealthServer.init 3)
           {| clients := [node_a]; unhealthy_clients := []; DEAD_THRESH := 3 |}
           node_a [io_timeout; io_ack; io_nak; io_closed_by_peer; io_timeout] 2).
  - reflexivity.
  - reflexivity.
Defined.

(** X2.  No false alarm: as long as no send came back short and fewer passes
    than the threshold were misses, in any order and with any number of
    acknowledged or empty passes among them, the node is still on the active
    list, not on the unhealthy list, and its counter is at most the number of
    misses so far. *)
Theorem no_death_below_threshold (hs : HealthServer.t) (a : address)
        (ios : list probe_io) :
  Forall (fun io => classify io <> ShortSend) ios ->
  Z.of_nat (length (filter missed ios)) < DEAD_THRESH hs ->
  exists c,
    probe_health ios a hs =
      StillProbing {| clients := clients hs ++ [a];
                      unhealthy_clients := unhealthy_clients hs;
                      DEAD_THRESH := DEAD_THRESH hs |} c /\
    0 <= c <= Z.of_nat (length (filter missed ios)).
Proof.
  intros Hall Hlt.
  destruct (probe_loop_few_misses (DEAD_THRESH hs) 0 ios Hall) as (c & Hc & Hrange);
    [lia|lia|].
  exists c. split; [|lia].
  unfold probe_health. cbn [DEAD_THRESH]. rewrite Hc. reflexivity.
Qed.

Lemma no_death_below_threshold_witness :
  exists c,
    probe_health [io_timeout; io_closed_by_peer; io_ack; io_nak; io_ack; io_broken_pipe]
                 node_a (HealthServer.init 4)
    = StillProbing {| clients := [node_a]; unhealthy_clients := []; DEAD_THRESH := 4 |} c /\
    0 <= c <= 3.
Proof.
  apply (no_death_below_threshold (HealthServer.init 4) node_a
           [io_timeout; io_closed_by_peer; io_ack; io_nak; io_ack; io_broken_pipe]).
  - repeat (constructor; [discriminate|]). constructor.
  - reflexivity.
Defined.

(** X3.  With a threshold other than 0, a pass whose reply is empty neither
    counts nor resets: striking such passes from what the socket answered
    leaves the outcome of [probe_health] unchanged.  Misses separated by
    empty replies therefore add up, and a peer that answers every probe with
    an empty reply is probed for ever with the counter at 0. *)
Theorem empty_replies_are_invisible (hs : HealthServer.t) (a : address)
        (ios : list probe_io) :
  DEAD_THRESH hs <> 0 ->
  probe_health (filter (fun io => classify io <> EmptyReply) ios) a hs
  = probe_health ios a hs /\
  (Forall (fun io => classify io = EmptyReply) ios ->
   probe_health ios a hs =
     StillProbing {| clients := clients hs ++ [a];
                     unhealthy_clients := unhealthy_clients hs;
                     DEAD_THRESH := DEAD_THRESH hs |} 0).
Proof.
  intros Hnz.
  assert (Hskip : probe_health (filter (fun io => classify io <> EmptyReply) ios) a hs
                  = probe_health ios a hs).
  { unfold probe_health. cbn [DEAD_THRESH].
    rewrite probe_loop_skip_empty by (assumption || lia). reflexivity. }
  split; [exact Hskip|].
  intros Hall. rewrite <- Hskip. clear Hskip.
  replace (filter (fun io => classify io <> EmptyReply) ios) with (@nil probe_io);
    [reflexivity|].
  induction Hall as [|io ios' Hio _ IH]; [reflexivity|].
  rewrite filter_cons_False by (intros H; apply H; exact Hio). exact IH.
Qed.

Lemma empty_replies_are_invisible_witness :
  probe_health [io_timeout; io_closed_by_peer; io_nak; io_closed_by_peer; io_timeout]
               node_a (HealthServer.init 3)
  = probe_health [io_timeout; io_nak; io_timeout] node_a (HealthServer.init 3).
Proof.
  symmetry.
  apply (empty_replies_are_invisible (HealthServer.init 3) node_a
           [io_timeout; io_closed_by_peer; io_nak; io_closed_by_peer; io_timeout]).
  discriminate.
Defined.

(** X4.  A threshold of 0 or below is never reached by counting: whatever
    mix of acknowledged passes and misses the socket produces, the node
    stays on the active list. *)
Theorem non_positive_threshold_never_reached (hs : HealthServer.t) (a : address)
        (ios : list probe_io) :
  DEAD_THRESH hs <= 0 ->
  Forall (fun io => classify io = Acked \/ missed io) ios ->
  exists c,
    probe_health ios a hs =
      StillProbing {| clients := clients hs ++ [a];
                      unhealthy_clients := unhealthy_clients hs;
                      DEAD_THRESH := DEAD_THRESH hs |} c /\
    0 <= c.
Proof.
  intros Hle Hall.
  destruct (probe_loop_no_threshold (DEAD_THRESH hs) 0 ios Hle) as (c & Hc & Hpos);
    [lia|exact Hall|].
  exists c. split; [|exact Hpos].
  unfold probe_health. cbn [DEAD_THRESH]. rewrite Hc. reflexivity.
Qed.

Lemma non_positive_threshold_never_reached_witness :
  exists c,
    probe_health [io_timeout; io_timeout; io_nak; io_broken_pipe] node_a (HealthServer.init 0)
    = StillProbing {| clients := [node_a]; unhealthy_clients := []; DEAD_THRESH := 0 |} c /\
    0 <= c.
Proof.
  apply (non_positive_threshold_never_reached (HealthServer.init 0) node_a
           [io_timeout; io_timeout; io_nak; io_broken_pipe]).
  - reflexivity.
  - repeat (constructor; [right; first [left; reflexivity | right; reflexivity]|]).
    constructor.
Defined.

(** X5.  Run on its own, [probe_health] never fails with [ValueError].  While
    the node is probed its address is the last entry of the active list and
    the unhealthy list is untouched; once the call has returned the address is
    the last entry of the unhealthy list and the active list is a permutation
    of what it was before the call (the very same list if the address was not
    on it). *)
Theorem probe_health_outcome (hs : HealthServer.t) (a : address) (ios : list probe_io) :
  match probe_health ios a hs with
  | StillProbing hs' _ =>
      clients hs' = clients hs ++ [a] /\
      unhealthy_clients hs' = unhealthy_clients hs /\
      DEAD_THRESH hs' = DEAD_THRESH hs
  | Returned hs' =>
      clients hs' ≡ₚ clients hs /\
      (a ∉ clients hs -> clients hs' = clients hs) /\
      unhealthy_clients hs' = unhealthy_clients hs ++ [a] /\
      DEAD_THRESH hs' = DEAD_THRESH hs
  | Raised _ _ => False
  end.
Proof.
  unfold probe_health. cbn [DEAD_THRESH].
  destruct (probe_loop (DEAD_THRESH hs) 0 ios); [repeat split|].
  unfold declare_dead. cbn [clients unhealthy_clients DEAD_THRESH].
  destruct (remove_app_same a (clients hs)) as (cs & Hcs & Hfresh).
  rewrite Hcs. cbn [clients unhealthy_clients DEAD_THRESH].
  repeat split; [|exact Hfresh].
  apply remove_Permutation in Hcs.
  apply (Permutation.Permutation_cons_inv (a := a)). rewrite <- Hcs.
  symmetry. apply Permutation_cons_append.
Qed.

(** ** The probing threads of [monitor] *)

Section monitor_threads.

Import Monitor.

Implicit Types (th : thread) (hs : HealthServer.t) (sys : system) (l : list thread).

Lemma thread_step_address th hs :
  client_address (thread_step th hs).1 = client_address th.
Proof.
  unfold thread_step. destruct (at_stage th) as [ios|c [|io rest]| | | |e];
    try reflexivity.
  - destruct (probe_round _ _ _) as [[] ?]; reflexivity.
  - destruct (remove _ _); reflexivity.
Qed.

Lemma thread_step_thresh th hs :
  DEAD_THRESH (thread_step th hs).2 = DEAD_THRESH hs.
Proof.
  unfold thread_step. destruct (at_stage th) as [ios|c [|io rest]| | | |e];
    try reflexivity.
  - destruct (probe_round _ _ _) as [[] ?]; reflexivity.
  - destruct (remove _ _); reflexivity.
Qed.

(** Addresses of the threads that satisfy [P], before and after thread [i]
    is replaced. *)
Lemma addresses_update (P : thread -> Prop) `{forall th, Decision (P th)} l i th th' :
  l !! i = Some th ->
  client_address <$> filter P l
    ≡ₚ (if decide (P th) then [client_address th] else [])
       ++ (client_address <$> filter P (delete i l)) /\
  client_address <$> filter P (<[i := th']> l)
    ≡ₚ (if decide (P th') then [client_address th'] else [])
       ++ (client_address <$> filter P (delete i l)).
Proof.
  intros Hi. split.
  - rewrite (delete_Permutation l i th Hi) at 1.
    rewrite filter_cons. destruct (decide (P th)); reflexivity.
  - assert (Hperm : <[i := th']> l ≡ₚ th' :: delete i l).
    { rewrite insert_take_drop by (eapply lookup_lt_Some; exact Hi).
      rewrite delete_take_drop. symmetry. apply Permutation_middle. }
    rewrite Hperm, filter_cons. destruct (decide (P th')); reflexivity.
Qed.

Lemma fire_thresh ev sys :
  DEAD_THRESH (shared (fire ev sys)) = DEAD_THRESH (shared sys).
Proof.
  destruct ev as [a ios|i]; cbn [fire]; [reflexivity|].
  destruct (threads sys !! i) as [th|]; [|reflexivity].
  pose proof (thread_step_thresh th (shared sys)) as H.
  destruct (thread_step th (shared sys)) as [th' hs']. exact H.
Qed.

Lemma fire_consistent ev sys : consistent sys -> consistent (fire ev sys).
Proof.
  intros (Hact & Hfin & Hok). destruct ev as [a ios|i]; cbn [fire].
  - unfold consistent; cbn [threads shared].
    rewrite !filter_app, !filter_cons_False, !filter_nil, !app_nil_r
      by (cbn; tauto).
    repeat split; [assumption|assumption|].
    apply Forall_app; split; [assumption|]. constructor; [cbn; tauto|constructor].
  - destruct (threads sys !! i) as [th|] eqn:Hi; [|repeat split; assumption].
    assert (Hth : ~ crashed th)
      by (eapply Forall_lookup_1 in Hok; [exact Hok|exact Hi]).
    destruct (thread_step th (shared sys)) as [th' hs'] eqn:Hstep.
    destruct (addresses_update active (threads sys) i th th' Hi) as [Ha Ha'].
    destruct (addresses_update finished (threads sys) i th th' Hi) as [Hf Hf'].
    unfold consistent; cbn [threads shared].
    rewrite Ha', Hf'. rewrite Ha in Hact. rewrite Hf in Hfin.
    clear Ha Ha' Hf Hf'.
    generalize dependent (client_address <$> filter active (delete i (threads sys))).
    generalize dependent (client_address <$> filter finished (delete i (threads sys))).
    intros fin Hfin act Hact.
    assert (Hins : ~ crashed th' -> Forall (fun th => ~ crashed th) (<[i:=th']> (threads sys)))
      by (intros ?; apply Forall_insert; assumption).
    destruct th as [a st]. unfold thread_step in Hstep. cbn [client_address at_stage] in Hstep.
    clear Hi Hok.
    destruct st as [ios|c [|io rest]| | | |e];
      try (destruct (probe_round (DEAD_THRESH (shared sys)) c io) as [[] c']);
      try (destruct (remove a (clients (shared sys))) as [cs|e] eqn:Hrm);
      simplify_eq; cbn [clients unhealthy_clients client_address];
      repeat case_decide;
      unfold active, finished, crashed in *; cbn [at_stage] in *; try tauto;
      cbn [app client_address] in *;
      try (exfalso;
           destruct (remove_elem_of a (clients (shared sys))) as [cs' Hcs'];
           [rewrite Hact; left | congruence]);
      (split; [|split; [|apply Hins; tauto]]);
      try assumption;
      try (rewrite Hact; symmetry; apply Permutation_cons_append);
      try (rewrite Hfin; symmetry; apply Permutation_cons_append).
    apply (Permutation.Permutation_cons_inv (a := a)).
    rewrite <- (remove_Permutation _ _ _ Hrm). exact Hact.
Qed.

Lemma run_consistent evs sys :
  consistent sys ->
  consistent (run evs sys) /\
  DEAD_THRESH (shared (run evs sys)) = DEAD_THRESH (shared sys).
Proof.
  unfold run. revert sys. induction evs as [|ev evs IH]; intros sys Hsys; cbn [foldl].
  - split; [exact Hsys|reflexivity].
  - destruct (IH (fire ev sys) (fire_consistent ev sys Hsys)) as [H1 H2].
    split; [exact H1|]. rewrite H2. apply fire_thresh.
Qed.

(** X6.  However the scheduler interleaves the statements of the probing
    threads with each other and with the arrival of new connections, no
    thread is ever ended by the [ValueError] of [clients.remove]; the active
    list holds exactly the addresses of the threads that have registered and
    not yet removed themselves, and the unhealthy list exactly those of the
    threads that returned, both up to order and with repetitions; the
    threshold stays what the constructor set; and the number [summary] prints
    is the number of such threads. *)
Theorem monitor_threads_consistent (HEARTBEAT_THRESH : Z) (evs : list event) :
  consistent (run evs (boot HEARTBEAT_THRESH)) /\
  DEAD_THRESH (shared (run evs (boot HEARTBEAT_THRESH))) = HEARTBEAT_THRESH /\
  summary_line (shared (run evs (boot HEARTBEAT_THRESH)))
  = "Active healthy clients: "
    +:+ pretty (length (filter active (threads (run evs (boot HEARTBEAT_THRESH))))).
Proof.
  destruct (run_consistent evs (boot HEARTBEAT_THRESH)) as [Hc Ht].
  { repeat split; [reflexivity|reflexivity|constructor]. }
  split; [exact Hc|]. split; [exact Ht|].
  unfold summary_line. destruct Hc as (Hact & _ & _).
  rewrite Hact, length_fmap. reflexivity.
Qed.

End monitor_threads.

(** ** Further properties of the cache router *)

Section routing_more.

Import CacheServer.

Context {CH : Ring.ConsistentHashing}.

Implicit Types (w : world) (c : call) (cs : list call) (key : string).

Lemma set_effect key v answer w :
  CacheServer.set key v answer w =
  match Ring.get_node key (ring (self w)) with
  | Raise e => (Raise e, w)
  | Ret node =>
      match answer with
      | Raise e =>
          (Raise e,
           {| self := self w; backlog := backlog w;
              sent := sent w ++ [(node, VTuple [VStr "set"; VStr key; v])];
              journal := journal w; stdout := stdout w |})
      | Ret response =>
          (Ret (VBool (truthy response)),
           {| self := self w; backlog := backlog w;
              sent := sent w ++ [(node, VTuple [VStr "set"; VStr key; v])];
              journal := journal w ++ [VTuple [VStr "set"; VStr key; v]];
              stdout := stdout w |})
      end
  end.
Proof.
  run_method. destruct (Ring.get_node key (ring (self w))); [|reflexivity].
  run_method. destruct answer; reflexivity.
Qed.

Lemma delete_effect key answer w :
  delete key answer w =
  match Ring.get_node key (ring (self w)) with
  | Raise e => (Raise e, w)
  | Ret node =>
      match answer with
      | Raise e =>
          (Raise e,
           {| self := self w; backlog := backlog w;
              sent := sent w ++ [(node, VTuple [VStr "del"; VStr key])];
              journal := journal w; stdout := stdout w |})
      | Ret response =>
          (Ret response,
           {| self := self w; backlog := backlog w;
              sent := sent w ++ [(node, VTuple [VStr "del"; VStr key])];
              journal := journal w ++ [VTuple [VStr "del"; VStr key]];
              stdout := stdout w |})
      end
  end.
Proof.
  run_method. destruct (Ring.get_node key (ring (self w))); [|reflexivity].
  run_method. destruct answer; reflexivity.
Qed.


(** What one call does to the ring. *)
Lemma exec_ring c w r w' :
  exec c w = Some (r, w') ->
  ~ membership_call c ->
  ring (self w') = ring (self w).
Proof.
  destruct c; cbn [exec membership_call]; unfold increment, decrement;
    rewrite ?get_effect, ?set_effect, ?delete_effect, ?add_effect; intros E Hc;
    try tauto;
    try (destruct (Ring.get_node key (ring (self w))); [destruct answer|];
         simplify_eq; reflexivity).
  - simplify_eq. reflexivity.
  - run_method. destruct (true_div _ _); simplify_eq; reflexivity.
Qed.

(** X8.  When the ring has no node for the key, [get], [set], [delete], [add],
    [increment] and [decrement] raise the ring's exception and leave
    everything as it was: nothing is sent, nothing is journalled and the
    statistics do not move. *)
Theorem failed_lookup_changes_nothing key (e : exn) w :
  Ring.get_node key (ring (self w)) = Raise e ->
  forall (v : value) (diff : Z) (answer : result value),
    get key answer w = (Raise e, w) /\
    CacheServer.set key v answer w = (Raise e, w) /\
    delete key answer w = (Raise e, w) /\
    add key diff answer w = (Raise e, w) /\
    increment key answer w = (Raise e, w) /\
    decrement key answer w = (Raise e, w).
Proof.
  intros Hnode v diff answer. unfold increment, decrement.
  rewrite get_effect, set_effect, delete_effect, !add_effect, Hnode.
  repeat split.
Qed.

(** X9.  When the exchange with the backend raises, the exception reaches the
    caller of [get], [set], [delete] and [add]; the command was handed to the
    transport for the node of the key, but it is not journalled, and a failed
    [get] counts neither as a query nor as a hit. *)
Theorem failed_exchange_is_not_recorded key (node : socket) (e : exn) w :
  Ring.get_node key (ring (self w)) = Ret node ->
  forall (v : value) (diff : Z),
    let failed (command : value) : result value * world :=
      (Raise e,
       {| self := self w; backlog := backlog w;
          sent := sent w ++ [(node, command)];
          journal := journal w; stdout := stdout w |}) in
    get key (Raise e) w = failed (VTuple [VStr "get"; VStr key]) /\
    CacheServer.set key v (Raise e) w = failed (VTuple [VStr "set"; VStr key; v]) /\
    delete key (Raise e) w = failed (VTuple [VStr "del"; VStr key]) /\
    add key diff (Raise e) w = failed (VTuple [VStr "add"; VStr key; VInt diff]).
Proof.
  intros Hnode v diff failed.
  rewrite get_effect, set_effect, delete_effect, add_effect, Hnode.
  repeat split.
Qed.



(** X12.  In every state reached from the constructor the counters satisfy
    [0 <= cache_hits <= query_count], so the quotient, where it is defined,
    lies between 0 and 1.  There [stats] never returns: it prints the line
    ["Total queries: "], without the count, and then raises,
    [ZeroDivisionError] when no query was made and [AttributeError]
    otherwise.  It changes nothing but the output. *)
Theorem stats_never_reports (replicas expire_after : Z) cs :
  let w := run cs (init replicas expire_after) in
  0 <= cache_hits (self w) <= query_count (self w) /\
  stats w =
  (Raise (if query_count (self w) =? 0 then ZeroDivisionError else AttributeError),
   {| self := self w; backlog := backlog w; sent := sent w; journal := journal w;
      stdout := stdout w ++ ["Total queries: "%string] |}).
Proof.
  intros w. split.
  - pose proof (run_counters cs (init replicas expire_after)) as H. cbn in H.
    fold w in H. lia.
  - run_method. unfold true_div. destruct (query_count (self w)); reflexivity.
Qed.

(** X13.  If handing the id to the new backend fails, [spawn] ends with that
    exception after the connection was taken off the backlog and entered in
    the registry, but before the ring was told: the backend holds an id and
    receives no keys. *)
Theorem spawn_send_failure (e : exn) (client_socket : socket) (client_address : address)
        (waiting : list (socket * address)) w :
  backlog w = (client_socket, client_address) :: waiting ->
  spawn (Raise e) w =
  Some (Raise e,
        {| self := {| num_virtual_replicas := num_virtual_replicas (self w);
                      expire := expire (self w);
                      ring := ring (self w);
                      clients := <[size (clients (self w)) := (client_socket, client_address)]>
                                   (clients (self w));
                      cache_hits := cache_hits (self w);
                      query_count := query_count (self w) |};
           backlog := waiting;
           sent := sent w ++ [(client_socket, VInt (Z.of_nat (size (clients (self w)))))];
           journal := journal w; stdout := stdout w |}).
Proof. intros H. unfold spawn. rewrite H. reflexivity. Qed.

Lemma run_registry_grows cs w :
  ids_sequential (clients (self w)) ->
  clients (self w) ⊆ clients (self (run cs w)).
Proof.
  revert w. induction cs as [|c cs IH]; intros w Hseq; cbn [run]; [reflexivity|].
  destruct (exec c w) as [[r w1]|] eqn:E; [|reflexivity].
  transitivity (clients (self w1)).
  - destruct (exec_step _ _ _ _ E) as (_ & [->|(conn & _ & ->)] & _); [reflexivity|].
    apply insert_subseteq, ids_sequential_fresh, Hseq.
  - apply IH. exact (exec_registry _ _ _ _ E Hseq).
Qed.

(** X14.  The registry never forgets and never reassigns: once an id maps to
    a connection and its address, it maps to them after any further calls,
    delisting included, and the registry never gets smaller. *)
Theorem registry_entries_are_permanent (replicas expire_after : Z) cs cs'
        (client_id : nat) (conn : socket * address) :
  let w := run cs (init replicas expire_after) in
  clients (self w) !! client_id = Some conn ->
  clients (self (run cs' w)) !! client_id = Some conn /\
  (size (clients (self w)) <= size (clients (self (run cs' w))))%nat.
Proof.
  intros w Hin.
  assert (Hsub : clients (self w) ⊆ clients (self (run cs' w))).
  { apply run_registry_grows.
    apply (run_registry cs (init replicas expire_after)), ids_sequential_empty. }
  split.
  - eapply lookup_weaken; [exact Hin|exact Hsub].
  - apply map_subseteq_size, Hsub.
Qed.

Lemma run_ring cs w :
  Forall (fun c => ~ membership_call c) cs ->
  ring (self (run cs w)) = ring (self w).
Proof.
  intros Hall. revert w. induction Hall as [|c cs Hc _ IH]; intros w; cbn [run];
    [reflexivity|].
  destruct (exec c w) as [[r w1]|] eqn:E; [|reflexivity].
  rewrite IH. exact (exec_ring _ _ _ _ E Hc).
Qed.

(** X15.  Only [spawn] and the delisting touch the ring.  Across any calls
    other than these two the ring stays as it is, so a key is looked up to
    the same node after them as before: a [get] is sent to the node to which
    an earlier [set] of the same key was sent. *)
Theorem routing_is_stable_between_membership_changes cs w key (v : value)
        (node : socket) (answer answer' : result value) :
  Forall (fun c => ~ membership_call c) cs ->
  Ring.get_node key (ring (self w)) = Ret node ->
  let w1 := (CacheServer.set key v answer w).2 in
  let w2 := run cs w1 in
  ring (self w2) = ring (self w) /\
  sent w1 = sent w ++ [(node, VTuple [VStr "set"; VStr key; v])] /\
  sent (get key answer' w2).2 = sent w2 ++ [(node, VTuple [VStr "get"; VStr key])].
Proof.
  intros Hall Hnode w1 w2.
  assert (Hring1 : ring (self w1) = ring (self w) /\
                   sent w1 = sent w ++ [(node, VTuple [VStr "set"; VStr key; v])]).
  { unfold w1. rewrite set_effect, Hnode. destruct answer; split; reflexivity. }
  destruct Hring1 as [Hring1 Hsent1].
  assert (Hring2 : ring (self w2) = ring (self w))
    by (unfold w2; rewrite run_ring by exact Hall; exact Hring1).
  repeat split; [exact Hring2|exact Hsent1|].
  rewrite get_effect, Hring2, Hnode. destruct answer'; reflexivity.
Qed.

(** X16.  The statistics after any calls made since the constructor:
    [query_count] is the number of [get] calls that returned, and [cache_hits]
    is the number of those whose result passes the test [result != False]. *)
Theorem statistics_count_completed_gets (replicas expire_after : Z) cs :
  let w := init replicas expire_after in
  query_count (self (run cs w)) = Z.of_nat (length (get_results cs w)) /\
  cache_hits (self (run cs w)) = count_true (ne_False <$> get_results cs w).
Proof.
  intros w. destruct (run_counts_gets cs w) as [Hq Hh]. cbn in Hq, Hh.
  split; lia.
Qed.

Lemma roster_insert {A : Type} (m : gmap nat A) (x : A) :
  ids_sequential m -> roster (<[size m := x]> m) = roster m ++ [x].
Proof.
  intros Hseq. unfold roster.
  destruct (ids_sequential_insert m x Hseq) as [-> _].
  rewrite seq_S, omap_app. cbn [omap list_omap Nat.add]. rewrite lookup_insert_eq. f_equal.
  apply list_omap_ext. apply Forall2_same_length_lookup. split; [reflexivity|].
  intros i j j' Hj Hj'. assert (j' = j) as -> by congruence.
  apply lookup_seq in Hj as [-> Hlt].
  rewrite lookup_insert_ne by lia. reflexivity.
Qed.

Lemma run_roster cs w :
  ids_sequential (clients (self w)) ->
  roster (clients (self (run cs w))) ++ backlog (run cs w)
  = roster (clients (self w)) ++ backlog w ++ arrivals cs w.
Proof.
  revert w. induction cs as [|c cs IH]; intros w Hseq; cbn [run arrivals].
  - rewrite app_nil_r. reflexivity.
  - destruct (exec c w) as [[r w1]|] eqn:E; [|rewrite app_nil_r; reflexivity].
    rewrite (IH w1 (exec_registry _ _ _ _ E Hseq)).
    destruct c; cbn [exec] in E;
      try (pose proof (exec_other_self _ _ _ _ E) as (Hc & _);
           cbn [exec] in *; rewrite Hc).
    + simplify_eq. cbn [backlog]. rewrite <- !app_assoc. reflexivity.
    + unfold spawn in E. destruct (backlog w) as [|[s a] waiting] eqn:Hb; [discriminate|].
      run_method.
      match type of E with
      | context [match ?outcome with Ret _ => _ | Raise _ => _ end] => destruct outcome
      end; cbn in E; simplify_eq; cbn [self clients backlog];
        rewrite roster_insert by exact Hseq; rewrite <- !app_assoc; reflexivity.
    + rewrite set_effect in E.
      destruct (Ring.get_node key (ring (self w))); [destruct answer|]; simplify_eq;
        reflexivity.
    + destruct (exec_get_self _ _ _ _ _ E) as (Hc & _). rewrite Hc.
      rewrite get_effect in E.
      destruct (Ring.get_node key (ring (self w))); [destruct answer|]; simplify_eq;
        reflexivity.
    + rewrite delete_effect in E.
      destruct (Ring.get_node key (ring (self w))); [destruct answer|]; simplify_eq;
        reflexivity.
    + unfold increment in E. rewrite add_effect in E.
      destruct (Ring.get_node key (ring (self w))); [destruct answer|]; simplify_eq;
        reflexivity.
    + unfold decrement in E. rewrite add_effect in E.
      destruct (Ring.get_node key (ring (self w))); [destruct answer|]; simplify_eq;
        reflexivity.
    + rewrite add_effect in E.
      destruct (Ring.get_node key (ring (self w))); [destruct answer|]; simplify_eq;
        reflexivity.
    + run_method. simplify_eq. reflexivity.
    + run_method. destruct (true_div _ _); simplify_eq; reflexivity.
Qed.

(** X17.  Backends are registered first come, first served: at any time the
    registry, read in the order of the ids, followed by the connections still
    waiting to be accepted, is the list of all connections in the order in
    which they arrived.  So the backend that connected k-th holds id k. *)
Theorem ids_follow_arrival_order (replicas expire_after : Z) cs :
  let w := run cs (init replicas expire_after) in
  roster (clients (self w)) ++ backlog w = arrivals cs (init replicas expire_after) /\
  length (roster (clients (self w))) = size (clients (self w)).
Proof.
  intros w. split.
  - unfold w. rewrite run_roster by apply ids_sequential_empty. reflexivity.
  - destruct (run_registry cs (init replicas expire_after) ids_sequential_empty)
      as [Hseq _]. fold w in Hseq.
    unfold roster. generalize (clients (self w)) Hseq. intros m Hm.
    assert (H : forall n, (n <= size m)%nat ->
                length (omap (fun i => m !! i) (seq 0 n)) = n).
    { induction n as [|n IHn]; intros Hn; [reflexivity|].
      rewrite seq_S, omap_app, length_app, IHn by lia. cbn [Nat.add omap list_omap].
      destruct (proj2 (Hm n)) as [x ->]; [lia|]. cbn. lia. }
    apply H. lia.
Qed.

End routing_more.

(** ** Sessions that follow one another *)

Lemma probe_health_lists (hs : HealthServer.t) (a : address) (ios : list probe_io) :
  (forall hs' c, probe_health ios a hs = StillProbing hs' c ->
     clients hs' = clients hs ++ [a] /\ unhealthy_clients hs' = unhealthy_clients hs) /\
  (forall hs', probe_health ios a hs = Returned hs' ->
     unhealthy_clients hs' = unhealthy_clients hs ++ [a]).
Proof.
  unfold probe_health, declare_dead. cbn [DEAD_THRESH clients unhealthy_clients].
  destruct (probe_loop (DEAD_THRESH hs) 0 ios); split; intros hs'.
  - intros c' [= <- _]. split; reflexivity.
  - discriminate.
  - intros c'. destruct (remove _ _); discriminate.
  - destruct (remove _ _); [|discriminate]. intros [= <-]. reflexivity.
Qed.

(** X18.  A node that was declared dead and connects again from the same
    address is, while it is probed anew, on the active list and still on the
    unhealthy list: the earlier entry stays until a report is acknowledged. *)
Theorem reconnected_node_is_on_both_lists (hs hs1 hs2 : HealthServer.t) (a : address)
        (ios ios' : list probe_io) (c : Z) :
  probe_health ios a hs = Returned hs1 ->
  probe_health ios' a hs1 = StillProbing hs2 c ->
  a ∈ clients hs2 /\ a ∈ unhealthy_clients hs2.
Proof.
  intros H1 H2.
  apply (probe_health_lists hs a ios) in H1.
  apply (probe_health_lists hs1 a ios') in H2 as [Hc2 Hu2].
  rewrite Hc2, Hu2, H1. split; apply elem_of_app; right; left.
Qed.

Lemma reconnected_node_is_on_both_lists_witness :
  node_a ∈ [node_a] /\ node_a ∈ [node_a].
Proof.
  apply (reconnected_node_is_on_both_lists
           (HealthServer.init 3)
           {| clients := []; unhealthy_clients := [node_a]; DEAD_THRESH := 3 |}
           {| clients := [node_a]; unhealthy_clients := [node_a]; DEAD_THRESH := 3 |}
           node_a [io_timeout; io_nak; io_timeout] [io_ack; io_timeout] 1).
  - reflexivity.
  - reflexivity.
Defined.

(** ** Closed instances for the router *)

Lemma failed_lookup_changes_nothing_witness :
  CacheServer.get "x" (Ret (VInt 1)) (@CacheServer.init sample_ring 5 0)
  = (Raise EmptyRingError, CacheServer.init 5 0) /\
  CacheServer.set "x" (VInt 1) (Ret (VBool true)) (@CacheServer.init sample_ring 5 0)
  = (Raise EmptyRingError, CacheServer.init 5 0).
Proof.
  destruct (@failed_lookup_changes_nothing sample_ring "x" EmptyRingError
              (CacheServer.init 5 0) eq_refl (VInt 1) 0 (Ret (VInt 1))) as (Hget & _).
  destruct (@failed_lookup_changes_nothing sample_ring "x" EmptyRingError
              (CacheServer.init 5 0) eq_refl (VInt 1) 0 (Ret (VBool true))) as (_ & Hset & _).
  split; [exact Hget|exact Hset].
Defined.

Lemma failed_exchange_is_not_recorded_witness :
  CacheServer.query_count
    (CacheServer.self (CacheServer.get "x" (Raise TimeoutError) one_backend).2) = 0 /\
  CacheServer.journal (CacheServer.get "x" (Raise TimeoutError) one_backend).2
  = CacheServer.journal one_backend /\
  CacheServer.sent (CacheServer.get "x" (Raise TimeoutError) one_backend).2
  = [(7, VInt 0); (7, VTuple [VStr "get"; VStr "x"])].
Proof.
  destruct (@failed_exchange_is_not_recorded sample_ring "x" 7 TimeoutError one_backend
              eq_refl VNone 0) as (Hget & _).
  rewrite Hget. repeat split.
Defined.

Lemma spawn_send_failure_witness :
  exists w',
    CacheServer.spawn (Raise OSError)
      (CacheServer.run [CacheServer.Connect 7 node_a] (@CacheServer.init sample_ring 5 0))
    = Some (Raise OSError, w') /\
    CacheServer.clients (CacheServer.self w') !! 0%nat = Some (7, node_a) /\
    CacheServer.ring (CacheServer.self w') = [].
Proof.
  eexists. split.
  - apply (@spawn_send_failure sample_ring OSError 7 node_a []). reflexivity.
  - split; reflexivity.
Defined.

Lemma registry_entries_are_permanent_witness :
  CacheServer.clients
    (CacheServer.self
       (CacheServer.run [CacheServer.Delist 7; CacheServer.Connect 8 node_a;
                         CacheServer.Spawn (Ret tt)] one_backend)) !! 0%nat
  = Some (7, node_a).
Proof.
  apply (@registry_entries_are_permanent sample_ring 5 0
           [CacheServer.Connect 7 node_a; CacheServer.Spawn (Ret tt)]
           [CacheServer.Delist 7; CacheServer.Connect 8 node_a; CacheServer.Spawn (Ret tt)]
           0%nat (7, node_a)).
  reflexivity.
Defined.

Lemma routing_is_stable_between_membership_changes_witness :
  CacheServer.sent
    (CacheServer.get "x" (Ret (VInt 1))
       (CacheServer.run [CacheServer.Get "y" (Ret (VBool false)); CacheServer.Stats]
          (CacheServer.set "x" (VInt 1) (Ret (VBool true)) one_backend).2)).2
  = CacheServer.sent
      (CacheServer.run [CacheServer.Get "y" (Ret (VBool false)); CacheServer.Stats]
         (CacheServer.set "x" (VInt 1) (Ret (VBool true)) one_backend).2)
    ++ [(7, VTuple [VStr "get"; VStr "x"])].
Proof.
  apply (@routing_is_stable_between_membership_changes sample_ring
           [CacheServer.Get "y" (Ret (VBool false)); CacheServer.Stats]
           one_backend "x" (VInt 1) 7 (Ret (VBool true)) (Ret (VInt 1))).
  - repeat (constructor; [cbn; tauto|]). constructor.
  - reflexivity.
Defined.
